(** * Authentication and token lifecycle of the contacts API

    A shallow embedding of [src/services/auth.py], [src/repository/user.py],
    [src/database/models.py] and [src/routes/auth.py], and the properties of
    the token lifecycle stated over it.

    Conventions of the embedding.
    - Time is the number of whole seconds since the epoch, a [Z]: the only
      use the code makes of [datetime.utcnow()] is to fill the numeric
      [iat] and [exp] claims of a token and to compare [exp] with the clock.
      A request is served at one instant [now].
    - A Python exception is a value of [exn]; a computation that may raise
      returns a [result].  The routes thread the database session, the redis
      client and the background-task queue: they live in the monad [M], in
      which a raised exception keeps every change committed before it.
    - The libraries the code calls ([jose.jwt], passlib's [CryptContext],
      the SQL table behind the session, redis) are modelled by the
      behaviour the code relies on; each model says so where it is given. *)

From Stdlib Require Import String ZArith List Bool Lia.
Import ListNotations.
Local Open Scope string_scope.
Local Open Scope Z_scope.

(** ** Python values, exceptions and results *)

Module Py.

(** The values a token payload carries. *)
Inductive json : Type :=
| JStr (s : string)
| JInt (n : Z)
| JNull.

Definition json_eq_dec (a b : json) : {a = b} + {a <> b}.
Proof. decide equality; [apply string_dec | apply Z.eq_dec]. Defined.

(** A [dict] with string keys, in insertion order. *)
Definition dict : Type := list (string * json).

Fixpoint dict_get (k : string) (d : dict) : option json :=
  match d with
  | [] => None
  | (k', v) :: d' => if String.eqb k' k then Some v else dict_get k d'
  end.

(** [d[k] = v]: overwrite in place, or append a new key. *)
Fixpoint dict_set (k : string) (v : json) (d : dict) : dict :=
  match d with
  | [] => [(k, v)]
  | (k', v') :: d' =>
      if String.eqb k' k then (k', v) :: d' else (k', v') :: dict_set k v d'
  end.

(** [d.update(other)] *)
Definition dict_update (d other : dict) : dict :=
  fold_left (fun acc kv => dict_set (fst kv) (snd kv) acc) other d.

Definition dict_eq_dec (a b : dict) : {a = b} + {a <> b}.
Proof.
  apply list_eq_dec; intros [k v] [k' v'].
  destruct (string_dec k k'); [| right; congruence].
  destruct (json_eq_dec v v'); [left | right]; congruence.
Defined.

(** The exceptions the authentication code raises or lets through.
    [ExpiredSignatureError] and [JWTClaimsError] are subclasses of
    [JWTError] in [jose.exceptions]. *)
Inductive exn : Type :=
| HTTPException (status_code : Z) (detail : string)
                (headers : option (list (string * string)))
| JWTError (msg : string)
| ExpiredSignatureError (msg : string)
| JWTClaimsError (msg : string)
| KeyError (key : string)
| AttributeError (msg : string)
| TypeError (msg : string)
| IntegrityError (msg : string).

(** [isinstance(e, JWTError)] *)
Definition is_JWTError (e : exn) : bool :=
  match e with
  | JWTError _ | ExpiredSignatureError _ | JWTClaimsError _ => true
  | _ => false
  end.

Inductive result (A : Type) : Type :=
| Return (a : A)
| Raise (e : exn).
Arguments Return {A} a.
Arguments Raise {A} e.

Definition rbind {A B} (r : result A) (k : A -> result B) : result B :=
  match r with
  | Return a => k a
  | Raise e => Raise e
  end.

(** [try: body  except: raise e'] -- the bare [except] catches everything. *)
Definition try_except_all {A} (body : result A) (e' : exn) : result A :=
  match body with
  | Return a => Return a
  | Raise _ => Raise e'
  end.

(** [try: body  except JWTError: raise e'] -- anything else propagates. *)
Definition try_except_JWTError {A} (body : result A) (e' : exn) : result A :=
  match body with
  | Return a => Return a
  | Raise e => if is_JWTError e then Raise e' else Raise e
  end.

(** [d[k]] *)
Definition subscript (d : dict) (k : string) : result json :=
  match dict_get k d with
  | Some v => Return v
  | None => Raise (KeyError k)
  end.

(** [o.name] on a value that may be [None]. *)
Definition getattr {T A} (o : option T) (name : string) (field : T -> A)
  : result A :=
  match o with
  | Some x => Return (field x)
  | None =>
      Raise (AttributeError
               ("'NoneType' object has no attribute '" ++ name ++ "'"))
  end.

(** [int(v)] on a claim value: the number, or the exception Python raises.
    A text is read as Python reads a decimal literal: white space around it
    is dropped, one sign may lead, and single underscores may separate
    digits.  (Text is ASCII here; the digits and spaces beyond ASCII that
    Python also reads, and the limit newer Pythons put on the number of
    digits, are left aside.) *)
Inductive coerced : Type :=
| Number (n : Z)
| ValueError_
| TypeError_ (msg : string).

Definition ord (c : Ascii.ascii) : Z := Z.of_nat (Ascii.nat_of_ascii c).

Definition is_space (c : Ascii.ascii) : bool :=
  ((9 <=? ord c) && (ord c <=? 13)) || (ord c =? 32).

Definition digit (c : Ascii.ascii) : option Z :=
  if (48 <=? ord c) && (ord c <=? 57) then Some (ord c - 48) else None.

Fixpoint lstrip (s : string) : string :=
  match s with
  | EmptyString => EmptyString
  | String c s' => if is_space c then lstrip s' else s
  end.

Fixpoint rstrip (s : string) : string :=
  match s with
  | EmptyString => EmptyString
  | String c s' =>
      match rstrip s' with
      | EmptyString => if is_space c then EmptyString else String c EmptyString
      | rest => String c rest
      end
  end.

(** Where the reading of the digits stands: nothing read yet, just past a
    digit, or just past an underscore. *)
Inductive reading : Type := Start | Digit | Underscore.

Fixpoint digits (st : reading) (acc : Z) (s : string) : option Z :=
  match s with
  | EmptyString => match st with Digit => Some acc | _ => None end
  | String c s' =>
      match digit c with
      | Some d => digits Digit (10 * acc + d) s'
      | None =>
          if ord c =? 95 then   (* an underscore *)
            match st with
            | Digit => digits Underscore acc s'
            | _ => None
            end
          else None
      end
  end.

Definition int_of_str (s : string) : option Z :=
  match rstrip (lstrip s) with
  | EmptyString => None
  | String c s' =>
      if ord c =? 45 then option_map Z.opp (digits Start 0 s')   (* - *)
      else if ord c =? 43 then digits Start 0 s'                 (* + *)
      else digits Start 0 (String c s')
  end.

Definition int (v : json) : coerced :=
  match v with
  | JInt n => Number n
  | JStr s =>
      match int_of_str s with
      | Some n => Number n
      | None => ValueError_
      end
  | JNull =>
      TypeError_ ("int() argument must be a string, a bytes-like object " ++
                  "or a real number, not 'NoneType'")
  end.

(** The subject of a payload, used as a [str] by every caller.  [jwt.decode]
    has rejected a payload whose [sub] is not a string before this point
    (lemma [decode_sub_str] below), so the second branch is never taken. *)
Definition str_of (v : json) : result string :=
  match v with
  | JStr s => Return s
  | _ => Raise (TypeError "subject is not a str")
  end.

Definition HTTP_400_BAD_REQUEST : Z := 400.
Definition HTTP_401_UNAUTHORIZED : Z := 401.
Definition HTTP_404_NOT_FOUND : Z := 404.
Definition HTTP_409_CONFLICT : Z := 409.
Definition HTTP_422_UNPROCESSABLE_ENTITY : Z := 422.

End Py.
Import Py.

Declare Scope result_scope.
Delimit Scope result_scope with result.
Notation "x <- c ;; k" := (rbind c (fun x => k))
  (at level 61, c at next level, right associativity) : result_scope.

(** ** [jose.jwt]

    The library is not part of the repository.  Its tokens are modelled
    symbolically: a well-formed token is its header algorithm, its payload
    and the key its signature was made with, so that two tokens are the same
    string exactly when these agree, and a signature verifies exactly under
    the key that made it.  Every other string is [Opaque].  A payload is a
    JSON object whose values are texts, integers or [null]. *)

Module jwt.

Inductive token : Type :=
| JWS (alg : string) (payload : dict) (signing_key : string)
| Opaque (raw : string).

Definition token_eq_dec (a b : token) : {a = b} + {a <> b}.
Proof.
  decide equality; try apply string_dec; apply dict_eq_dec.
Defined.

(** [jwt.encode(claims, key, algorithm)]; the [datetime] claims are already
    numeric here. *)
Definition encode (claims : dict) (key algorithm : string) : token :=
  JWS algorithm claims key.

(** The claim checks [jwt.decode] runs by default, in the library's order,
    as they go when the caller names no audience, issuer, subject or access
    token -- which is how this code calls it.

    [try: int(claims[name])  except ValueError: raise JWTClaimsError(msg)]:
    a [TypeError] of [int] is not caught. *)
Definition time_claim (name msg : string) (claims : dict)
  : result (option Z) :=
  match dict_get name claims with
  | None => Return None
  | Some v =>
      match int v with
      | Number n => Return (Some n)
      | ValueError_ => Raise (JWTClaimsError msg)
      | TypeError_ m => Raise (TypeError m)
      end
  end.

Definition validate_iat (claims : dict) : result unit :=
  (_ <- time_claim "iat" "Issued At claim (iat) must be an integer." claims ;;
   Return tt)%result.

Definition validate_nbf (claims : dict) (now : Z) : result unit :=
  (nbf <- time_claim "nbf" "Not Before claim (nbf) must be an integer."
            claims ;;
   match nbf with
   | Some nbf =>
       if now <? nbf then Raise (JWTClaimsError "The token is not yet valid (nbf)")
       else Return tt
   | None => Return tt
   end)%result.

Definition validate_exp (claims : dict) (now : Z) : result unit :=
  (exp <- time_claim "exp" "Expiration Time claim (exp) must be an integer."
            claims ;;
   match exp with
   | Some exp =>
       if exp <? now then Raise (ExpiredSignatureError "Signature has expired.")
       else Return tt
   | None => Return tt
   end)%result.

(** With no audience named, a token that has an [aud] claim is refused:
    [None] is not among its audiences. *)
Definition validate_aud (claims : dict) : result unit :=
  match dict_get "aud" claims with
  | None => Return tt
  | Some (JStr _) => Raise (JWTClaimsError "Invalid audience")
  | Some _ => Raise (JWTClaimsError "Invalid claim format in token")
  end.

(** With no issuer named, [iss] is not looked at. *)
Definition validate_iss (claims : dict) : result unit := Return tt.

Definition validate_sub (claims : dict) : result unit :=
  match dict_get "sub" claims with
  | None | Some (JStr _) => Return tt
  | Some _ => Raise (JWTClaimsError "Subject must be a string.")
  end.

Definition validate_jti (claims : dict) : result unit :=
  match dict_get "jti" claims with
  | None | Some (JStr _) => Return tt
  | Some _ => Raise (JWTClaimsError "JWT ID must be a string.")
  end.

(** With no access token given, a token that has an [at_hash] claim is
    refused. *)
Definition validate_at_hash (claims : dict) : result unit :=
  match dict_get "at_hash" claims with
  | None => Return tt
  | Some _ =>
      Raise (JWTClaimsError
               "No access_token provided to compare against at_hash claim.")
  end.

Definition validate_claims (claims : dict) (now : Z) : result unit :=
  (_ <- validate_iat claims ;;
   _ <- validate_nbf claims now ;;
   _ <- validate_exp claims now ;;
   _ <- validate_aud claims ;;
   _ <- validate_iss claims ;;
   _ <- validate_sub claims ;;
   _ <- validate_jti claims ;;
   validate_at_hash claims)%result.

(** [jwt.decode(token, key, algorithms)] at clock [now]. *)
Definition decode (tok : token) (key algorithms : string) (now : Z)
  : result dict :=
  match tok with
  | Opaque _ => Raise (JWTError "Not enough segments")
  | JWS alg payload signing_key =>
      if negb (String.eqb alg algorithms) then
        Raise (JWTError "The specified alg value is not allowed")
      else if negb (String.eqb signing_key key) then
        Raise (JWTError "Signature verification failed.")
      else
        (_ <- validate_claims payload now ;; Return payload)%result
  end.

End jwt.
Import jwt.

(** ** [src/database/models.py] and [src/schemas.py] *)

Module models.

(** A row of the [users] table.  [email_confirm] defaults to [False]; the
    two token columns and [avatar] are nullable. *)
Record User : Type := {
  id : Z;
  username : string;
  email : string;
  email_confirm : bool;
  password : string;
  avatar : option string;
  refresh_token : option token;
  password_reset_token : option token
}.

Definition set_refresh_token (u : User) (t : option token) : User :=
  {| id := id u; username := username u; email := email u;
     email_confirm := email_confirm u; password := password u;
     avatar := avatar u; refresh_token := t;
     password_reset_token := password_reset_token u |}.

Definition set_password_reset_token (u : User) (t : option token) : User :=
  {| id := id u; username := username u; email := email u;
     email_confirm := email_confirm u; password := password u;
     avatar := avatar u; refresh_token := refresh_token u;
     password_reset_token := t |}.

Definition set_password (u : User) (p : string) : User :=
  {| id := id u; username := username u; email := email u;
     email_confirm := email_confirm u; password := p;
     avatar := avatar u; refresh_token := refresh_token u;
     password_reset_token := password_reset_token u |}.

Definition set_email_confirm (u : User) (b : bool) : User :=
  {| id := id u; username := username u; email := email u;
     email_confirm := b; password := password u;
     avatar := avatar u; refresh_token := refresh_token u;
     password_reset_token := password_reset_token u |}.

End models.

Module schemas.

Record UserModel : Type := {
  username : string;
  email : string;
  password : string
}.

(** The body of [Token]: [token_type] is always ["bearer"]. *)
Record Token : Type := {
  access_token : token;
  refresh_token : token;
  token_type : string
}.

Record ResetPassword : Type := {
  reset_password_token : token;
  new_password : string;
  confirm_password : string
}.

(** [OAuth2PasswordRequestForm]: the login form carries the email in its
    [username] field. *)
Record OAuth2PasswordRequestForm : Type := {
  form_username : string;
  form_password : string
}.

End schemas.

(** ** Process configuration and external collaborators

    [src/conf/config.py] is not among the sources: the signing key and the
    algorithm it provides are parameters.  So are passlib's [CryptContext]
    (its [hash] draws a random salt, here an explicit argument) and
    libgravatar's image URL. *)

Class Settings : Type := {
  secret_key : string;
  algorithm : string
}.

Class CryptContext : Type := {
  hash : string -> string -> string;   (* salt, password *)
  verify : string -> string -> bool    (* password, digest *)
}.

Class Gravatar : Type := {
  get_image : string -> string
}.

(** What the code expects of a password hasher: a digest verifies against
    the password it was made from, and is not that password. *)
Class PasswordHasher (pwd_context : CryptContext) : Prop := {
  verify_hash : forall salt password, verify password (hash salt password) = true;
  hash_not_plaintext : forall salt password, hash salt password <> password
}.

(** ** The session, the redis client and the task queue *)

Module redis.

(** A key holds a value (here always an identity id, kept as text) and an
    optional expiry instant. *)
Record entry : Type := { value : Z; expire_at : option Z }.

Definition Redis : Type := list (string * entry).

(** The server drops a key once its clock is past the expiry instant: at
    the instant itself the key is still served. *)
Definition live (now : Z) (e : entry) : bool :=
  match expire_at e with
  | Some t => now <=? t
  | None => true
  end.

Fixpoint get (key : string) (now : Z) (r : Redis) : option Z :=
  match r with
  | [] => None
  | (k, e) :: r' =>
      if String.eqb k key then (if live now e then Some (value e) else None)
      else get key now r'
  end.

Fixpoint set (key : string) (v : Z) (r : Redis) : Redis :=
  match r with
  | [] => [(key, {| value := v; expire_at := None |})]
  | (k, e) :: r' =>
      if String.eqb k key then (k, {| value := v; expire_at := None |}) :: r'
      else (k, e) :: set key v r'
  end.

Fixpoint expire (key : string) (seconds now : Z) (r : Redis) : Redis :=
  match r with
  | [] => []
  | (k, e) :: r' =>
      if String.eqb k key
      then (k, {| value := value e; expire_at := Some (now + seconds) |}) :: r'
      else (k, e) :: expire key seconds now r'
  end.

End redis.

(** What [background_tasks.add_task] queues. *)
Inductive task : Type :=
| send_email (email username host : string)
| pass_reset_email (email username host : string).

(** The session is the [users] table, rows in insertion order. *)
Definition Session : Type := list models.User.

Record world : Type := {
  db : Session;
  r : redis.Redis;
  background_tasks : list task
}.

Definition with_db (w : world) (d : Session) : world :=
  {| db := d; r := r w; background_tasks := background_tasks w |}.

Definition with_r (w : world) (c : redis.Redis) : world :=
  {| db := db w; r := c; background_tasks := background_tasks w |}.

Definition with_task (w : world) (t : task) : world :=
  {| db := db w; r := r w; background_tasks := (background_tasks w ++ [t])%list |}.

(** Computations over the world that may raise.  What was committed before
    an exception stays committed. *)
Definition M (A : Type) : Type := world -> result A * world.

Definition ret {A} (a : A) : M A := fun w => (Return a, w).

Definition raise {A} (e : exn) : M A := fun w => (Raise e, w).

Definition bind {A B} (m : M A) (k : A -> M B) : M B :=
  fun w =>
    match m w with
    | (Return a, w') => k a w'
    | (Raise e, w') => (Raise e, w')
    end.

Definition lift {A} (x : result A) : M A := fun w => (x, w).

(** Run a repository function on the session. *)
Definition on_db {A} (f : Session -> result A * Session) : M A :=
  fun w => let (x, d) := f (db w) in (x, with_db w d).

(** Read the session without changing it. *)
Definition query {A} (f : Session -> A) : M A :=
  fun w => (Return (f (db w)), w).

(** Read from, and write to, the redis client. *)
Definition r_read {A} (f : redis.Redis -> A) : M A :=
  fun w => (Return (f (r w)), w).

Definition r_write (f : redis.Redis -> redis.Redis) : M unit :=
  fun w => (Return tt, with_r w (f (r w))).

Definition add_task (t : task) : M unit :=
  fun w => (Return tt, with_task w t).

Declare Scope monad_scope.
Delimit Scope monad_scope with monad.
Notation "x <- c ;; k" := (bind c (fun x => k))
  (at level 61, c at next level, right associativity) : monad_scope.
Notation "c ;; k" := (bind c (fun _ => k))
  (at level 61, right associativity) : monad_scope.

(** ** [src/repository/user.py] *)

Module repository_user.
Import models.

(** [db.query(User).filter(User.email == email).first()] *)
Definition get_user_by_email (email : string) (db : Session) : option User :=
  find (fun row => String.eqb (models.email row) email) db.

Definition get_user_by_id (userid : Z) (db : Session) : option User :=
  find (fun row => Z.eqb (models.id row) userid) db.

(** The primary key the table gives the next row. *)
Definition next_id (db : Session) : Z :=
  1 + fold_right (fun row acc => Z.max (models.id row) acc) 0 db.

(** [add_user]: [email] is declared [unique=True], so the commit of a second
    row with the same email raises. *)
Definition add_user {gravatar : Gravatar} (body : schemas.UserModel) (db : Session)
  : result User * Session :=
  let user :=
    {| id := next_id db;
       username := schemas.username body;
       email := schemas.email body;
       email_confirm := false;
       password := schemas.password body;
       avatar := Some (get_image (schemas.email body));
       refresh_token := None;
       password_reset_token := None |} in
  if existsb (fun row => String.eqb (models.email row) (schemas.email body)) db
  then (Raise (IntegrityError "UNIQUE constraint failed: users.email"), db)
  else (Return user, (db ++ [user])%list).

(** [user.field = v; db.commit()]: the row with the primary key of [user]
    is rewritten.  On [None] the assignment itself raises. *)
Definition update_row (user : option User) (name : string)
  (change : User -> User) (db : Session) : result unit * Session :=
  match user with
  | None =>
      (Raise (AttributeError
                ("'NoneType' object has no attribute '" ++ name ++ "'")), db)
  | Some u =>
      (Return tt,
       map (fun row => if Z.eqb (models.id row) (models.id u)
                       then change row else row) db)
  end.

Definition update_token (user : option User) (refresh_token : option token)
  (db : Session) : result unit * Session :=
  update_row user "refresh_token"
    (fun row => set_refresh_token row refresh_token) db.

Definition update_reset_token (user : option User)
  (reset_token : option token) (db : Session) : result unit * Session :=
  update_row user "password_reset_token"
    (fun row => set_password_reset_token row reset_token) db.

Definition update_password (user : option User) (new_password : string)
  (db : Session) : result unit * Session :=
  update_row user "password"
    (fun row => set_password row new_password) db.

Definition verify_email (user : option User) (db : Session)
  : result unit * Session :=
  update_row user "email_confirm"
    (fun row => set_email_confirm row true) db.

End repository_user.

(** ** [src/services/auth.py] *)

Module AuthPassword.

Definition get_hash_password {pwd_context : CryptContext} (salt password : string)
  : string :=
  hash salt password.

Definition verify_password {pwd_context : CryptContext} (password hashed_password : string)
  : bool :=
  verify password hashed_password.

End AuthPassword.

Module AuthToken.
Import models.

Section AuthToken.
Context {settings : Settings}.

Definition SECRET_KEY : string := secret_key.
Definition ALGORITHM : string := algorithm.

(** [timedelta(minutes=n)], [timedelta(hours=n)] and [timedelta(n)] -- the
    first positional argument of [timedelta] is a number of days.

    [expires_delta] is a whole number of days here, and the issuers are
    total.  In Python it is a float: a fraction of a day is outside this
    embedding, and so are the values for which [timedelta], or the addition
    to [utcnow()], raises [OverflowError]; a statement about a given
    [expires_delta] names the range it holds on. *)
Definition timedelta_minutes (n : Z) : Z := 60 * n.
Definition timedelta_hours (n : Z) : Z := 3600 * n.
Definition timedelta (n : Z) : Z := 86400 * n.

(** [if expires_delta:] -- [None] and zero are both false. *)
Definition truth (expires_delta : option Z) : bool :=
  match expires_delta with
  | Some d => negb (d =? 0)
  | None => false
  end.

Definition number (expires_delta : option Z) : Z :=
  match expires_delta with
  | Some d => d
  | None => 0
  end.

Definition create_access_token (data : dict) (expires_delta : option Z)
  (now : Z) : token :=
  let to_encode := data in
  let expire :=
    if truth expires_delta then now + timedelta (number expires_delta)
    else now + timedelta_minutes 30 in
  let to_encode :=
    dict_update to_encode
      [("iat", JInt now); ("exp", JInt expire); ("scope", JStr "access_token")]
  in
  jwt.encode to_encode SECRET_KEY ALGORITHM.

Definition create_refresh_token (data : dict) (expires_delta : option Z)
  (now : Z) : token :=
  let to_encode := data in
  let expire :=
    if truth expires_delta then now + timedelta (number expires_delta)
    else now + timedelta_minutes 30 in
  let to_encode :=
    dict_update to_encode
      [("iat", JInt now); ("exp", JInt expire); ("scope", JStr "refresh_token")]
  in
  jwt.encode to_encode SECRET_KEY ALGORITHM.

Definition create_reset_password_token (data : dict)
  (expires_delta : option Z) (now : Z) : token :=
  let to_encode := data in
  let expire :=
    if truth expires_delta then now + timedelta (number expires_delta)
    else now + timedelta_minutes 5 in
  let to_encode :=
    dict_update to_encode
      [("iat", JInt now); ("exp", JInt expire);
       ("scope", JStr "reset_password_token")]
  in
  jwt.encode to_encode SECRET_KEY ALGORITHM.

Definition credentials_exception : exn :=
  HTTPException HTTP_401_UNAUTHORIZED "Could not validate credentials"
    (Some [("WWW-Authenticate", "Bearer")]).

(** The [try] block of [get_current_user]: the email the token is for. *)
Definition get_current_user_email (token : token) (now : Z) : result string :=
  try_except_all
    (payload <- jwt.decode token SECRET_KEY ALGORITHM now ;;
     scope <- subscript payload "scope" ;;
     if json_eq_dec scope (JStr "access_token") then
       email <- subscript payload "sub" ;;
       if json_eq_dec email JNull then Raise credentials_exception
       else str_of email
     else Raise credentials_exception)%result
    credentials_exception.

(** What [get_current_user] returns: the [int] primary key on a cache miss,
    the decoded text of the cached key on a hit. *)
Inductive current_user : Type :=
| id_int (n : Z)
| id_str (n : Z).

(** The statement [if user is None: raise credentials_exception] that
    follows [user = user.id] has no counterpart: [id] is the primary key of
    a stored row and is never [None]. *)
Definition get_current_user (token : token) (now : Z) : M current_user :=
  (email <- lift (get_current_user_email token now) ;;
   user <- r_read (redis.get email now) ;;
   match user with
   | None =>
       user <- query (repository_user.get_user_by_email email) ;;
       user <- lift (getattr user "id" models.id) ;;
       r_write (redis.set email user) ;;
       r_write (redis.expire email 60 now) ;;
       ret (id_int user)
   | Some user => ret (id_str user)
   end)%monad.

Definition refresh_token_email (refresh_token : token) (now : Z)
  : result string :=
  try_except_all
    (payload <- jwt.decode refresh_token SECRET_KEY ALGORITHM now ;;
     scope <- subscript payload "scope" ;;
     if json_eq_dec scope (JStr "refresh_token") then
       email <- subscript payload "sub" ;;
       if json_eq_dec email JNull then
         Raise (HTTPException HTTP_401_UNAUTHORIZED "Invalid Email" None)
       else str_of email
     else
       Raise (HTTPException HTTP_401_UNAUTHORIZED "Invalid scope for token"
                None))%result
    (HTTPException HTTP_401_UNAUTHORIZED "Could not validate credentials" None).

Definition reset_token_email (reset_token : token) (now : Z) : result string :=
  try_except_all
    (payload <- jwt.decode reset_token SECRET_KEY ALGORITHM now ;;
     scope <- subscript payload "scope" ;;
     if json_eq_dec scope (JStr "reset_password_token") then
       email <- subscript payload "sub" ;;
       if json_eq_dec email JNull then
         Raise (HTTPException HTTP_401_UNAUTHORIZED "Invalid Email" None)
       else str_of email
     else
       Raise (HTTPException HTTP_401_UNAUTHORIZED "Invalid scope for token"
                None))%result
    (HTTPException HTTP_401_UNAUTHORIZED "Could not validate credentials" None).

Definition create_email_token (data : dict) (now : Z) : token :=
  let to_encode := data in
  let expire := now + timedelta_hours 1 in
  let to_encode :=
    dict_update to_encode [("iat", JInt now); ("exp", JInt expire)] in
  jwt.encode to_encode SECRET_KEY ALGORITHM.

Definition get_email_from_token (token : token) (now : Z) : result string :=
  try_except_JWTError
    (payload <- jwt.decode token SECRET_KEY ALGORITHM now ;;
     email <- subscript payload "sub" ;;
     str_of email)%result
    (HTTPException HTTP_422_UNPROCESSABLE_ENTITY
       "Invalid token for email verification" None).

End AuthToken.
End AuthToken.

(** ** [src/routes/auth.py] *)

Module routes_auth.
Import AuthPassword AuthToken.

Section routes.
Context {settings : Settings} {pwd_context : CryptContext}
  {gravatar : Gravatar}.

Definition unauthorized (detail : string) : exn :=
  HTTPException HTTP_401_UNAUTHORIZED detail None.

(** [stored != token], where [stored] is a nullable column. *)
Definition differs (stored : option token) (token : token) : bool :=
  match stored with
  | Some t => if token_eq_dec t token then false else true
  | None => true
  end.

Definition bearer (access refresh : token) : schemas.Token :=
  {| schemas.access_token := access;
     schemas.refresh_token := refresh;
     schemas.token_type := "bearer" |}.

(** [POST /signup].  [salt] is the salt the hasher draws for this call. *)
Definition sign_up (body : schemas.UserModel) (base_url salt : string)
  : M models.User :=
  (check_user <- query (repository_user.get_user_by_email (schemas.email body)) ;;
   match check_user with
   | Some _ =>
       raise (HTTPException HTTP_409_CONFLICT "This email is already in use"
                None)
   | None =>
       let body :=
         {| schemas.username := schemas.username body;
            schemas.email := schemas.email body;
            schemas.password :=
              get_hash_password salt (schemas.password body) |} in
       new_user <- on_db (repository_user.add_user body) ;;
       add_task (send_email (models.email new_user) (models.username new_user)
                   base_url) ;;
       ret new_user
   end)%monad.

(** [POST /login] *)
Definition login (body : schemas.OAuth2PasswordRequestForm) (now : Z)
  : M schemas.Token :=
  (user <- query (repository_user.get_user_by_email
                    (schemas.form_username body)) ;;
   match user with
   | None => raise (unauthorized "Invalid email")
   | Some u =>
       if negb (verify_password (schemas.form_password body)
                  (models.password u))
       then raise (unauthorized "Invalid password")
       else if negb (models.email_confirm u)
       then raise (unauthorized
                     ("check " ++ models.email u ++ " to Confirm account"))
       else
         let access_token :=
           create_access_token [("sub", JStr (models.email u))] None now in
         let refresh_token :=
           create_refresh_token [("sub", JStr (models.email u))] None now in
         on_db (repository_user.update_token user (Some refresh_token)) ;;
         ret (bearer access_token refresh_token)
   end)%monad.

(** [POST /refresh_token] *)
Definition refresh_token (credentials : token) (now : Z) : M schemas.Token :=
  (let token := credentials in
   email <- lift (refresh_token_email token now) ;;
   user <- query (repository_user.get_user_by_email email) ;;
   stored <- lift (getattr user "refresh_token" models.refresh_token) ;;
   if differs stored token then
     on_db (repository_user.update_token user None) ;;
     raise (unauthorized "Invalid refresh token")
   else
     let access_token :=
       create_access_token [("sub", JStr email)] None now in
     let refresh_token :=
       create_refresh_token [("sub", JStr email)] None now in
     on_db (repository_user.update_token user (Some refresh_token)) ;;
     ret (bearer access_token refresh_token))%monad.

(** [GET /confirmed_email/{token}] *)
Definition confirmed_email (token : token) (now : Z) : M string :=
  (email <- lift (get_email_from_token token now) ;;
   user <- query (repository_user.get_user_by_email email) ;;
   match user with
   | None =>
       raise (HTTPException HTTP_400_BAD_REQUEST "Verification error" None)
   | Some u =>
       if models.email_confirm u then ret "Your email is already confirmed"
       else
         on_db (repository_user.verify_email user) ;;
         ret "Email confirmed"
   end)%monad.

(** [POST /password_reset] *)
Definition password_reset (email base_url : string) : M string :=
  (user <- query (repository_user.get_user_by_email email) ;;
   match user with
   | None =>
       raise (HTTPException HTTP_404_NOT_FOUND "no user with such email" None)
   | Some u =>
       add_task (pass_reset_email (models.email u) (models.username u)
                   base_url) ;;
       ret ("Reset instruction was sending to " ++ email)
   end)%monad.

(** [GET /password_reset_confirm/{token}] *)
Definition password_reset_email (token : token) (now : Z) : M jwt.token :=
  (email <- lift (get_email_from_token token now) ;;
   user <- query (repository_user.get_user_by_email email) ;;
   user_email <- lift (getattr user "email" models.email) ;;
   let reset_password_token :=
     create_reset_password_token [("sub", JStr user_email)] None now in
   on_db (repository_user.update_reset_token user
            (Some reset_password_token)) ;;
   ret reset_password_token)%monad.

(** [POST /set_new_password]: the second function the module names
    [password_reset]. *)
Definition set_new_password (request : schemas.ResetPassword) (now : Z)
  (salt : string) : M string :=
  (let token := schemas.reset_password_token request in
   email <- lift (reset_token_email token now) ;;
   user <- query (repository_user.get_user_by_email email) ;;
   check_token <- lift (getattr user "password_reset_token"
                          models.password_reset_token) ;;
   if differs check_token token then
     raise (unauthorized "Invalid reset token")
   else if negb (String.eqb (schemas.new_password request)
                   (schemas.confirm_password request))
   then raise (unauthorized "passwords do not match")
   else
     let new_password :=
       get_hash_password salt (schemas.new_password request) in
     on_db (repository_user.update_password user new_password) ;;
     on_db (repository_user.update_reset_token user None) ;;
     ret "password update successfully")%monad.

End routes.
End routes_auth.


(** ** The four kinds of token, side by side

    [issue] and [decode] name, for each scope, the function of [AuthToken]
    that mints a token for an email and the one that reads the email back.
    The email-verification token has no [scope] claim and a fixed lifetime;
    its reader is [get_email_from_token]. *)

Module scoped.
Import AuthToken.

Inductive scope : Type :=
| access
| refresh
| reset_password
| email_verification.

Section scoped.
Context {settings : Settings}.

Definition issue (s : scope) (email : string) (expires_delta : option Z)
  (now : Z) : token :=
  match s with
  | access => create_access_token [("sub", JStr email)] expires_delta now
  | refresh => create_refresh_token [("sub", JStr email)] expires_delta now
  | reset_password =>
      create_reset_password_token [("sub", JStr email)] expires_delta now
  | email_verification => create_email_token [("sub", JStr email)] now
  end.

Definition decode (s : scope) (tok : token) (now : Z) : result string :=
  match s with
  | access => get_current_user_email tok now
  | refresh => refresh_token_email tok now
  | reset_password => reset_token_email tok now
  | email_verification => get_email_from_token tok now
  end.

(** The time to live the code gives a token: [expires_delta], read as days,
    when it is given and not zero, and the default of the scope otherwise. *)
Definition ttl (s : scope) (expires_delta : option Z) : Z :=
  match s with
  | access | refresh =>
      if truth expires_delta then timedelta (number expires_delta)
      else timedelta_minutes 30
  | reset_password =>
      if truth expires_delta then timedelta (number expires_delta)
      else timedelta_minutes 5
  | email_verification => timedelta_hours 1
  end.

(** The value of the [scope] claim the reader of [s] insists on; [None] for
    the reader that does not look at it. *)
Definition scope_claim (s : scope) : option string :=
  match s with
  | access => Some "access_token"
  | refresh => Some "refresh_token"
  | reset_password => Some "reset_password_token"
  | email_verification => None
  end.

(** What the reader of [s] raises for a token it does not accept. *)
Definition rejection (s : scope) : exn :=
  match s with
  | access => credentials_exception
  | refresh | reset_password =>
      HTTPException HTTP_401_UNAUTHORIZED "Could not validate credentials" None
  | email_verification =>
      HTTPException HTTP_422_UNPROCESSABLE_ENTITY
        "Invalid token for email verification" None
  end.

End scoped.
End scoped.

(** ** A concrete deployment

    The values of [tests/conftest.py], a signing configuration, and a
    stand-in hasher that satisfies the contract of a password hasher (it is
    only used to run the routes on concrete requests). *)

Module fixture.
Import AuthToken.

Definition test_settings : Settings :=
  {| secret_key := "secret_key"; algorithm := "HS256" |}.

Definition test_pwd_context : CryptContext :=
  {| hash := fun salt password => "$2b$12$" ++ password;
     verify := fun password digest => String.eqb digest ("$2b$12$" ++ password)
  |}.

Definition test_gravatar : Gravatar :=
  {| get_image := fun email => "https://www.gravatar.com/avatar/" ++ email |}.

Definition address : string := "example@example.com".

Definition user : schemas.UserModel :=
  {| schemas.username := "Testuser";
     schemas.email := address;
     schemas.password := "qwerty" |}.

Definition form (password : string) : schemas.OAuth2PasswordRequestForm :=
  {| schemas.form_username := address;
     schemas.form_password := password |}.

Definition empty : world := {| db := []; r := []; background_tasks := [] |}.

Definition base_url : string := "http://testserver/".

Definition sign_up := routes_auth.sign_up (pwd_context := test_pwd_context)
  (gravatar := test_gravatar).
Definition confirmed_email :=
  routes_auth.confirmed_email (settings := test_settings).
Definition login := routes_auth.login (settings := test_settings)
  (pwd_context := test_pwd_context).
Definition refresh_token :=
  routes_auth.refresh_token (settings := test_settings).
Definition password_reset_email :=
  routes_auth.password_reset_email (settings := test_settings).
Definition set_new_password :=
  routes_auth.set_new_password (settings := test_settings)
    (pwd_context := test_pwd_context).
Definition get_current_user :=
  AuthToken.get_current_user (settings := test_settings).
Definition issue := scoped.issue (settings := test_settings).
Definition decode := scoped.decode (settings := test_settings).

(** The row of [user] once signed up, and once confirmed. *)
Definition unconfirmed_identity : models.User :=
  {| models.id := 1;
     models.username := "Testuser";
     models.email := address;
     models.email_confirm := false;
     models.password := "$2b$12$qwerty";
     models.avatar :=
       Some "https://www.gravatar.com/avatar/example@example.com";
     models.refresh_token := None;
     models.password_reset_token := None |}.

Definition identity : models.User :=
  models.set_email_confirm unconfirmed_identity true.

(** The world after the sign-up of [user], *)
Definition signed_up : world :=
  snd (sign_up user base_url "salt" empty).

(** after [user] followed the confirmation link, at second 10, *)
Definition confirmed : world :=
  snd (confirmed_email
         (create_email_token (settings := test_settings)
            [("sub", JStr address)] 0)
         10 signed_up).

(** after a login at second 20, which issues the refresh token [R1], *)
Definition R1 : token := issue scoped.refresh address None 20.

Definition logged_in : world := snd (login (form "qwerty") 20 confirmed).

(** after a refresh with [R1] at second 600, which issues [R2], *)
Definition R2 : token := issue scoped.refresh address None 600.

Definition rotated : world := snd (refresh_token R1 600 logged_in).

(** and, from [confirmed], after the exchange of a reset link at second 30,
    which issues the reset token [PR]. *)
Definition PR : token := issue scoped.reset_password address None 30.

Definition reset_pending : world :=
  snd (password_reset_email
         (create_email_token (settings := test_settings)
            [("sub", JStr address)] 25)
         30 confirmed).

Definition new_password_request : schemas.ResetPassword :=
  {| schemas.reset_password_token := PR;
     schemas.new_password := "asdfgh";
     schemas.confirm_password := "asdfgh" |}.

End fixture.

(** * Properties *)

(** ** The token codec *)

Module jwt_facts.
Import AuthToken scoped.

Section jwt_facts.
Context {settings : Settings}.

Lemma decode_signed (p : dict) (now : Z) :
  jwt.decode (JWS ALGORITHM p SECRET_KEY) SECRET_KEY ALGORITHM now =
  (_ <- validate_claims p now ;; Return p)%result.
Proof.
  unfold jwt.decode. now rewrite !String.eqb_refl.
Qed.

(** Claims that pass validation pass the checks of [exp] and of [sub]. *)
Lemma validate_claims_inv (p : dict) (now : Z) :
  validate_claims p now = Return tt ->
  validate_exp p now = Return tt /\ validate_sub p = Return tt.
Proof.
  unfold validate_claims.
  destruct (validate_iat p) as [[] |]; simpl; [| discriminate].
  destruct (validate_nbf p now) as [[] |]; simpl; [| discriminate].
  destruct (validate_exp p now) as [[] |]; simpl; [| discriminate].
  destruct (validate_aud p) as [[] |]; simpl; [| discriminate].
  destruct (validate_sub p) as [[] |]; simpl; [| discriminate].
  auto.
Qed.

(** A payload that [jwt.decode] lets through has a string for subject, if
    it has a subject at all. *)
Lemma decode_sub_str (tok : token) (key alg : string) (now : Z) (p : dict) :
  jwt.decode tok key alg now = Return p ->
  dict_get "sub" p = None \/ exists e, dict_get "sub" p = Some (JStr e).
Proof.
  destruct tok as [a q k | raw]; simpl; [| discriminate].
  destruct (negb (a =? alg)%string); [discriminate |].
  destruct (negb (k =? key)%string); [discriminate |].
  destruct (validate_claims q now) as [[] |] eqn:Hv; simpl; [| discriminate].
  intros [= <-]. apply validate_claims_inv in Hv as [_ Hs].
  unfold validate_sub in Hs.
  destruct (dict_get "sub" q) as [[] |]; try discriminate; eauto.
Qed.

(** The claims the issuers write pass validation until the expiry. *)
Lemma validate_issued (s : scope) (e : string) (x t0 t : Z) :
  validate_claims
    ([("sub", JStr e); ("iat", JInt t0); ("exp", JInt x)] ++
     match scope_claim s with
     | Some c => [("scope", JStr c)]
     | None => []
     end)%list t =
  if x <? t then Raise (ExpiredSignatureError "Signature has expired.")
  else Return tt.
Proof.
  destruct s;
    unfold validate_claims, validate_iat, validate_nbf, validate_exp,
      validate_aud, validate_iss, validate_sub, validate_jti,
      validate_at_hash, time_claim;
    simpl; destruct (x <? t); reflexivity.
Qed.

(** The payload of an issued token. *)
Lemma issue_payload (s : scope) (e : string) (d : option Z) (t0 : Z) :
  issue s e d t0 =
  JWS ALGORITHM
    ([("sub", JStr e); ("iat", JInt t0); ("exp", JInt (t0 + ttl s d))] ++
     match scope_claim s with
     | Some c => [("scope", JStr c)]
     | None => []
     end)%list
    SECRET_KEY.
Proof.
  destruct s; unfold issue, ttl, create_access_token, create_refresh_token,
    create_reset_password_token, create_email_token;
    try destruct (truth d); reflexivity.
Qed.



Lemma issue_decodes (s : scope) (e : string) (d : option Z) (t0 t : Z) :
  t <= t0 + ttl s d ->
  jwt.decode (issue s e d t0) SECRET_KEY ALGORITHM t =
  Return ([("sub", JStr e); ("iat", JInt t0); ("exp", JInt (t0 + ttl s d))] ++
          match scope_claim s with
          | Some c => [("scope", JStr c)]
          | None => []
          end)%list.
Proof.
  intros Ht. rewrite issue_payload, decode_signed, validate_issued.
  destruct (Z.ltb_spec (t0 + ttl s d) t); [lia | reflexivity].
Qed.

Lemma issue_expires (s : scope) (e : string) (d : option Z) (t0 t : Z) :
  t0 + ttl s d < t ->
  jwt.decode (issue s e d t0) SECRET_KEY ALGORITHM t =
  Raise (ExpiredSignatureError "Signature has expired.").
Proof.
  intros Ht. rewrite issue_payload, decode_signed, validate_issued.
  destruct (Z.ltb_spec (t0 + ttl s d) t); [reflexivity | lia].
Qed.

Lemma decode_issue_within (s : scope) (e : string) (d : option Z) (t0 t : Z) :
  t <= t0 + ttl s d -> decode s (issue s e d t0) t = Return e.
Proof.
  intros Ht. pose proof (issue_decodes s e d t0 t Ht) as Hd.
  destruct s; unfold decode, get_current_user_email, refresh_token_email,
    reset_token_email, get_email_from_token; rewrite Hd; reflexivity.
Qed.

Lemma decode_issue_after (s : scope) (e : string) (d : option Z) (t0 t : Z) :
  t0 + ttl s d < t -> decode s (issue s e d t0) t = Raise (rejection s).
Proof.
  intros Ht. pose proof (issue_expires s e d t0 t Ht) as Hd.
  destruct s; unfold decode, get_current_user_email, refresh_token_email,
    reset_token_email, get_email_from_token; rewrite Hd; reflexivity.
Qed.

(** What a reader accepts, exactly: a token signed with the configured key
    and algorithm whose claims pass validation, whose subject is the email
    returned and whose [scope] claim is the one the reader insists on. *)
Definition accepted (s : scope) (tok : token) (now : Z) (e : string) : Prop :=
  exists p,
    tok = JWS ALGORITHM p SECRET_KEY /\
    validate_claims p now = Return tt /\
    dict_get "sub" p = Some (JStr e) /\
    (forall c, scope_claim s = Some c -> dict_get "scope" p = Some (JStr c)).

Lemma decode_accepted (s : scope) (tok : token) (now : Z) (e : string) :
  accepted s tok now e -> decode s tok now = Return e.
Proof.
  intros (p & -> & Hv & Hsub & Hscope).
  destruct s; unfold decode, get_current_user_email, refresh_token_email,
    reset_token_email, get_email_from_token;
    rewrite decode_signed, Hv; unfold subscript; simpl;
    try rewrite (Hscope _ eq_refl); simpl; rewrite Hsub; reflexivity.
Qed.

Lemma decode_inv (s : scope) (tok : token) (now : Z) (e : string) :
  decode s tok now = Return e -> accepted s tok now e.
Proof.
  destruct tok as [a p k | raw]; [| destruct s; discriminate].
  intros Hd. exists p.
  assert (Hhead : a = ALGORITHM /\ k = SECRET_KEY /\
                  validate_claims p now = Return tt).
  { revert Hd.
    destruct s; unfold decode, get_current_user_email, refresh_token_email,
      reset_token_email, get_email_from_token, jwt.decode;
      destruct (String.eqb_spec a ALGORITHM); simpl; try discriminate;
      destruct (String.eqb_spec k SECRET_KEY); simpl; try discriminate;
      destruct (validate_claims p now) as [[] | x]; simpl;
      try discriminate; auto; destruct (is_JWTError x); discriminate. }
  destruct Hhead as (-> & -> & Hv). split; [reflexivity |].
  split; [assumption |].
  revert Hd.
  destruct s; unfold decode, get_current_user_email, refresh_token_email,
    reset_token_email, get_email_from_token;
    rewrite decode_signed, Hv; unfold subscript; simpl.
  1-3: destruct (dict_get "scope" p) as [sc|]; simpl; try discriminate;
    destruct (json_eq_dec sc _) as [-> |]; simpl; try discriminate.
  all: destruct (dict_get "sub" p) as [[x | n |]|]; simpl;
    try discriminate; intros [= ->]; split; try reflexivity;
    intros c [= <-]; reflexivity.
Qed.

(** A reader either returns an email or raises its one rejection, unless it
    is the reader of email tokens meeting a payload without subject. *)
Lemma decode_rejects (s : scope) (tok : token) (now : Z) :
  s <> email_verification ->
  (forall e, ~ accepted s tok now e) ->
  decode s tok now = Raise (rejection s).
Proof.
  intros Hs Hno.
  destruct (decode s tok now) as [e | x] eqn:Hd.
  - exfalso. apply (Hno e). now apply decode_inv.
  - destruct s; try congruence;
      unfold decode, get_current_user_email, refresh_token_email,
        reset_token_email, try_except_all in Hd;
      match type of Hd with
      | match ?b with _ => _ end = _ =>
          destruct b; simpl; congruence
      end.
Qed.

Lemma decode_raises (s : scope) (tok : token) (now : Z) (x : exn) :
  s <> email_verification ->
  decode s tok now = Raise x -> x = rejection s.
Proof.
  intros Hs Hd.
  destruct s; try congruence;
    unfold decode, get_current_user_email, refresh_token_email,
      reset_token_email, try_except_all in Hd;
    match type of Hd with
    | match ?b with _ => _ end = _ =>
        destruct b; simpl; congruence
    end.
Qed.

(** The email a token is read as does not depend on when it is read. *)
Lemma decode_same_subject (s : scope) (tok : token) (t1 t2 : Z)
  (e1 e2 : string) :
  decode s tok t1 = Return e1 -> decode s tok t2 = Return e2 -> e1 = e2.
Proof.
  intros H1 H2.
  apply decode_inv in H1 as (p1 & Htok1 & _ & Hsub1 & _).
  apply decode_inv in H2 as (p2 & Htok2 & _ & Hsub2 & _).
  rewrite Htok1 in Htok2. injection Htok2 as <-. congruence.
Qed.









End jwt_facts.
End jwt_facts.

(** ** The [users] table *)

Module table_facts.
Import models repository_user.

(** The table constraint [unique=True] on [email]. *)
Definition unique_emails (db : Session) : Prop :=
  NoDup (map models.email db).

(** The rows that carry a given email. *)
Definition rows_of (e : string) (db : Session) : list User :=
  filter (fun row => String.eqb (models.email row) e) db.

Lemma found_email (e : string) (db : Session) (u : User) :
  get_user_by_email e db = Some u -> models.email u = e.
Proof.
  unfold get_user_by_email. intros Hf.
  apply find_some in Hf as [_ Heq]. now apply String.eqb_eq.
Qed.

Lemma found_in (e : string) (db : Session) (u : User) :
  get_user_by_email e db = Some u -> In u db.
Proof.
  unfold get_user_by_email. intros Hf. now apply find_some in Hf.
Qed.

Lemma absent_rows (e : string) (db : Session) :
  get_user_by_email e db = None -> rows_of e db = [].
Proof.
  unfold get_user_by_email, rows_of.
  induction db as [| row db IH]; simpl; [reflexivity |].
  destruct (String.eqb (models.email row) e); [discriminate | exact IH].
Qed.

Lemma absent_existsb (e : string) (db : Session) :
  get_user_by_email e db = None ->
  existsb (fun row => String.eqb (models.email row) e) db = false.
Proof.
  unfold get_user_by_email.
  induction db as [| row db IH]; simpl; [reflexivity |].
  destruct (String.eqb (models.email row) e); [discriminate | exact IH].
Qed.

Lemma rows_not_in (e : string) (db : Session) :
  ~ In e (map models.email db) -> rows_of e db = [].
Proof.
  unfold rows_of. induction db as [| row db IH]; simpl; [reflexivity |].
  intros Hn. destruct (String.eqb_spec (models.email row) e) as [Heq | Hne].
  - exfalso. apply Hn. now left.
  - apply IH. intros Hin. apply Hn. now right.
Qed.

Lemma unique_rows (e : string) (db : Session) (u : User) :
  unique_emails db -> get_user_by_email e db = Some u -> rows_of e db = [u].
Proof.
  unfold unique_emails, get_user_by_email, rows_of.
  induction db as [| row db IH]; simpl; [discriminate |].
  intros Hnd Hf. inversion Hnd as [| ? ? Hnotin Hnd']; subst.
  destruct (String.eqb_spec (models.email row) e) as [Heq | Hne].
  - injection Hf as ->. f_equal.
    apply rows_not_in. now rewrite <- Heq.
  - now apply IH.
Qed.

Lemma found_after_append (e : string) (db : Session) (u : User) :
  get_user_by_email e db = None -> models.email u = e ->
  get_user_by_email e (db ++ [u])%list = Some u.
Proof.
  unfold get_user_by_email. intros Hn He.
  induction db as [| row db IH]; simpl in *.
  - now rewrite He, String.eqb_refl.
  - destruct (String.eqb (models.email row) e); [discriminate | now apply IH].
Qed.

(** Rewriting the row of [u] in place: the row found for an email is the
    rewritten one. *)
Lemma found_after_update (e : string) (u : User) (k : Z)
  (change : User -> User) (db : Session) :
  (forall x, models.email (change x) = models.email x) ->
  k = models.id u ->
  get_user_by_email e db = Some u ->
  get_user_by_email e
    (map (fun row => if Z.eqb (models.id row) k then change row else row) db)
  = Some (change u).
Proof.
  unfold get_user_by_email. intros Hmail -> .
  induction db as [| row db IH]; simpl; [discriminate |].
  destruct (String.eqb (models.email row) e) eqn:Hrow.
  - intros [= ->]. now rewrite Z.eqb_refl, Hmail, Hrow.
  - intros Hf. destruct (Z.eqb (models.id row) (models.id u));
      rewrite ?Hmail, Hrow; now apply IH.
Qed.

Lemma absent_after_update (e : string) (k : Z) (change : User -> User)
  (db : Session) :
  (forall x, models.email (change x) = models.email x) ->
  get_user_by_email e db = None ->
  get_user_by_email e
    (map (fun row => if Z.eqb (models.id row) k then change row else row) db)
  = None.
Proof.
  unfold get_user_by_email. intros Hmail.
  induction db as [| row db IH]; simpl; [reflexivity |].
  destruct (String.eqb (models.email row) e) eqn:Hrow; [discriminate |].
  intros Hf. destruct (Z.eqb (models.id row) k);
    rewrite ?Hmail, Hrow; now apply IH.
Qed.

Lemma update_again (k : Z) (change : User -> User) (db : Session) :
  (forall x, models.id (change x) = models.id x) ->
  (forall x, change (change x) = change x) ->
  let f := fun row => if Z.eqb (models.id row) k then change row else row in
  map f (map f db) = map f db.
Proof.
  intros Hid Hidem f. rewrite map_map. apply map_ext. intros row.
  unfold f. destruct (Z.eqb (models.id row) k) eqn:Hk.
  - now rewrite Hid, Hk, Hidem.
  - now rewrite Hk.
Qed.

Lemma emails_after_update (k : Z) (change : User -> User) (db : Session) :
  (forall x, models.email (change x) = models.email x) ->
  map models.email
    (map (fun row => if Z.eqb (models.id row) k then change row else row) db)
  = map models.email db.
Proof.
  intros Hmail. rewrite map_map. apply map_ext. intros row.
  now destruct (Z.eqb (models.id row) k); rewrite ?Hmail.
Qed.

(** The constraint holds of the empty table and every repository function
    keeps it. *)
Lemma unique_emails_nil : unique_emails [].
Proof. constructor. Qed.

Lemma unique_emails_update_row (user : option User) (name : string)
  (change : User -> User) (db : Session) :
  (forall x, models.email (change x) = models.email x) ->
  unique_emails db ->
  unique_emails (snd (update_row user name change db)).
Proof.
  intros Hmail Hu. destruct user as [u |]; simpl; [| exact Hu].
  unfold unique_emails. now rewrite emails_after_update.
Qed.

Lemma unique_emails_add_user {gravatar : Gravatar} (body : schemas.UserModel)
  (db : Session) :
  unique_emails db -> unique_emails (snd (add_user body db)).
Proof.
  unfold add_user, unique_emails. intros Hu.
  destruct (existsb _ db) eqn:Hex; simpl; [exact Hu |].
  rewrite map_app; simpl.
  assert (Hnotin : ~ In (schemas.email body) (map models.email db)).
  { intros Hin. apply in_map_iff in Hin as (row & Hrow & Hin).
    assert (Ht : existsb
                   (fun row => String.eqb (models.email row)
                                 (schemas.email body)) db = true).
    { apply existsb_exists. exists row. split; [exact Hin |].
      now apply String.eqb_eq. }
    congruence. }
  clear Hex. induction db as [| row db IH]; simpl.
  - constructor; [intros [] | constructor].
  - inversion Hu as [| ? ? Hn Hu']; subst. constructor.
    + rewrite in_app_iff. intros [Hin | [Heq | []]]; [now apply Hn |].
      apply Hnotin. left. now symmetry.
    + apply IH; [exact Hu' |]. intros Hin. apply Hnotin. now right.
Qed.

End table_facts.

(** ** The protected-route guard *)

Module guard_facts.
Import AuthToken scoped jwt_facts.

Section guard_facts.
Context {settings : Settings}.






(** C7 (what the code does).  With a valid access token for an email that
    is neither cached nor stored, the guard reads [.id] of the [None] the
    repository returned: the request ends in [AttributeError], not in the
    401 the statement after it was written to raise. *)
Theorem guard_unknown_identity (tok : token) (now : Z) (w : world)
  (e : string) :
  get_current_user_email tok now = Return e ->
  redis.get e now (r w) = None ->
  repository_user.get_user_by_email e (db w) = None ->
  get_current_user tok now w =
  (Raise (AttributeError "'NoneType' object has no attribute 'id'"), w).
Proof.
  intros Hd Hcache Hdb.
  unfold get_current_user, bind, lift, r_read, query.
  now rewrite Hd, Hcache, Hdb.
Qed.

End guard_facts.
End guard_facts.

(** ** The routes *)

Module flow_facts.
Import AuthPassword AuthToken scoped jwt_facts table_facts routes_auth.
Import repository_user.

Section flow_facts.
Context {settings : Settings} {pwd_context : CryptContext}
  {gravatar : Gravatar}.

Ltac run := unfold bind, lift, query, on_db, raise, ret, add_task; simpl.

(** C10.  When the token presented to refresh, to the exchange of the reset
    link or to set-new-password decodes to an email the table has no row
    for, the route reads an attribute of [None]: it ends in
    [AttributeError], which is none of the HTTP errors, and the world is
    as it was. *)
Theorem absent_identity_dereferenced (w : world) (now : Z) (e : string) :
  get_user_by_email e (db w) = None ->
  (forall tok,
     refresh_token_email tok now = Return e ->
     refresh_token tok now w =
     (Raise (AttributeError
               "'NoneType' object has no attribute 'refresh_token'"), w)) /\
  (forall tok,
     get_email_from_token tok now = Return e ->
     password_reset_email tok now w =
     (Raise (AttributeError "'NoneType' object has no attribute 'email'"),
      w)) /\
  (forall request salt,
     reset_token_email (schemas.reset_password_token request) now = Return e ->
     set_new_password request now salt w =
     (Raise (AttributeError
               "'NoneType' object has no attribute 'password_reset_token'"),
      w)).
Proof.
  intros Hnone. repeat split.
  - intros tok Hd. unfold refresh_token. run. now rewrite Hd, Hnone.
  - intros tok Hd. unfold password_reset_email. run. now rewrite Hd, Hnone.
  - intros request salt Hd. unfold set_new_password. run.
    now rewrite Hd, Hnone.
Qed.

(** C5 (as the code has it).  For an identity whose email is not confirmed,
    login fails with status 401 whatever the password; the detail is the
    request to confirm the account when the password verifies, and
    "Invalid password" when it does not. *)
Theorem login_unconfirmed (w : world)
  (body : schemas.OAuth2PasswordRequestForm) (now : Z) (u : models.User) :
  get_user_by_email (schemas.form_username body) (db w) = Some u ->
  models.email_confirm u = false ->
  login body now w =
  (Raise (unauthorized
            (if verify_password (schemas.form_password body)
                  (models.password u)
             then "check " ++ models.email u ++ " to Confirm account"
             else "Invalid password")), w).
Proof.
  intros Hu Hconf. unfold login. run. rewrite Hu, Hconf.
  now destruct (verify_password _ _).
Qed.

Lemma sign_up_taken (w : world) (body : schemas.UserModel)
  (base_url salt : string) (u : models.User) :
  get_user_by_email (schemas.email body) (db w) = Some u ->
  sign_up body base_url salt w =
  (Raise (HTTPException 409 "This email is already in use" None), w).
Proof.
  intros Hu. unfold sign_up. run. now rewrite Hu.
Qed.

(** The identity sign-up persists for a fresh email. *)
Definition new_identity (w : world) (body : schemas.UserModel)
  (salt : string) : models.User :=
  {| models.id := next_id (db w);
     models.username := schemas.username body;
     models.email := schemas.email body;
     models.email_confirm := false;
     models.password := get_hash_password salt (schemas.password body);
     models.avatar := Some (get_image (schemas.email body));
     models.refresh_token := None;
     models.password_reset_token := None |}.

Lemma sign_up_fresh (w : world) (body : schemas.UserModel)
  (base_url salt : string) :
  get_user_by_email (schemas.email body) (db w) = None ->
  sign_up body base_url salt w =
  (Return (new_identity w body salt),
   with_task (with_db w (db w ++ [new_identity w body salt])%list)
     (send_email (schemas.email body) (schemas.username body) base_url)).
Proof.
  intros Hn. unfold sign_up. run. rewrite Hn.
  unfold add_user; simpl. now rewrite (absent_existsb _ _ Hn).
Qed.

(** C4.  Two sign-ups with one email, on a table that respects the unique
    constraint: the second fails with 409 and changes nothing, and the
    table then holds exactly one identity with that email.  When the email
    was fresh the first sign-up is the one that created it. *)
Theorem sign_up_twice (w : world) (b1 b2 : schemas.UserModel)
  (url1 url2 salt1 salt2 : string) :
  schemas.email b2 = schemas.email b1 ->
  unique_emails (db w) ->
  let w1 := snd (sign_up b1 url1 salt1 w) in
  let step2 := sign_up b2 url2 salt2 w1 in
  fst step2 = Raise (HTTPException 409 "This email is already in use" None) /\
  snd step2 = w1 /\
  length (rows_of (schemas.email b1) (db (snd step2))) = 1%nat /\
  (get_user_by_email (schemas.email b1) (db w) = None ->
   fst (sign_up b1 url1 salt1 w) = Return (new_identity w b1 salt1) /\
   rows_of (schemas.email b1) (db w1) = [new_identity w b1 salt1]).
Proof.
  intros Hmail Huniq w1 step2. subst step2 w1.
  destruct (get_user_by_email (schemas.email b1) (db w)) as [u |] eqn:Hu.
  - rewrite (sign_up_taken w b1 url1 salt1 u Hu); simpl.
    assert (H2 := sign_up_taken w b2 url2 salt2 u).
    rewrite Hmail in H2. rewrite (H2 Hu); simpl.
    split; [reflexivity |]. split; [reflexivity |].
    split; [now rewrite (unique_rows _ _ _ Huniq Hu) | discriminate].
  - rewrite (sign_up_fresh w b1 url1 salt1 Hu); simpl.
    pose (u := new_identity w b1 salt1).
    assert (Hfound : get_user_by_email (schemas.email b2)
                       (db w ++ [u])%list = Some u).
    { rewrite Hmail. now apply found_after_append. }
    assert (Hrows : rows_of (schemas.email b1) (db w ++ [u])%list = [u]).
    { unfold rows_of. rewrite filter_app.
      fold (rows_of (schemas.email b1) (db w)).
      rewrite (absent_rows _ _ Hu); simpl. now rewrite String.eqb_refl. }
    erewrite sign_up_taken by (simpl; exact Hfound); simpl.
    unfold u in *. split; [reflexivity |]. split; [reflexivity |].
    split; [now rewrite Hrows |]. intros _. split; [reflexivity | exact Hrows].
Qed.

(** C9.  For a sign-up with a fresh email the stored password is the digest
    the hasher made of the submitted one; with a hasher that keeps its
    contract, it verifies against the submitted password and differs from
    it. *)
Theorem sign_up_stores_digest (w : world) (body : schemas.UserModel)
  (base_url salt : string) :
  PasswordHasher pwd_context ->
  get_user_by_email (schemas.email body) (db w) = None ->
  exists u w',
    sign_up body base_url salt w = (Return u, w') /\
    get_user_by_email (schemas.email body) (db w') = Some u /\
    models.password u = get_hash_password salt (schemas.password body) /\
    verify_password (schemas.password body) (models.password u) = true /\
    models.password u <> schemas.password body.
Proof.
  intros Hcontract Hfresh.
  eexists; eexists. split; [now apply sign_up_fresh |]. simpl.
  split; [now apply found_after_append |].
  split; [reflexivity |].
  split; [apply verify_hash | apply hash_not_plaintext].
Qed.

Lemma differs_false (stored : option token) (tok : token) :
  differs stored tok = false <-> stored = Some tok.
Proof.
  unfold differs. destruct stored as [t |]; [| split; discriminate].
  destruct (token_eq_dec t tok) as [-> | Hne]; split;
    congruence || reflexivity || discriminate.
Qed.

Lemma differs_true (stored : option token) (tok : token) :
  stored <> Some tok -> differs stored tok = true.
Proof.
  intros Hne. destruct (differs stored tok) eqn:Hd; [reflexivity |].
  now apply differs_false in Hd.
Qed.

(** The row of [u] rewritten by [change]. *)
Definition rewrite_row (u : models.User)
  (change : models.User -> models.User) (w : world) : world :=
  with_db w
    (map (fun row => if Z.eqb (models.id row) (models.id u)
                     then change row else row) (db w)).

(** Refresh, when the presented token decodes and the identity exists. *)
Lemma refresh_known (tok : token) (now : Z) (w : world) (e : string)
  (u : models.User) :
  refresh_token_email tok now = Return e ->
  get_user_by_email e (db w) = Some u ->
  refresh_token tok now w =
  if differs (models.refresh_token u) tok then
    (Raise (unauthorized "Invalid refresh token"),
     rewrite_row u (fun row => models.set_refresh_token row None) w)
  else
    (Return (bearer (issue access e None now) (issue refresh e None now)),
     rewrite_row u
       (fun row =>
          models.set_refresh_token row (Some (issue refresh e None now))) w).
Proof.
  intros Hd Hu. unfold refresh_token. run. rewrite Hd, Hu. simpl.
  destruct (differs (models.refresh_token u) tok); reflexivity.
Qed.

Lemma refresh_undecodable (tok : token) (now : Z) (w : world) :
  (forall e, refresh_token_email tok now <> Return e) ->
  refresh_token tok now w =
  (Raise (unauthorized "Could not validate credentials"), w).
Proof.
  intros Hno.
  assert (Hr : refresh_token_email tok now = Raise (rejection refresh)).
  { apply (decode_rejects refresh); [discriminate |].
    intros e Ha. apply (Hno e). now apply (decode_accepted refresh). }
  unfold refresh_token, bind, lift. now rewrite Hr.
Qed.

(** Login, when it succeeds, stores the refresh token it returns. *)
Lemma login_success (body : schemas.OAuth2PasswordRequestForm) (now : Z)
  (w w2 : world) (tk : schemas.Token) (u : models.User) :
  get_user_by_email (schemas.form_username body) (db w) = Some u ->
  login body now w = (Return tk, w2) ->
  tk = bearer (issue access (models.email u) None now)
         (issue refresh (models.email u) None now) /\
  w2 = rewrite_row u
         (fun row =>
            models.set_refresh_token row
              (Some (issue refresh (models.email u) None now))) w.
Proof.
  intros Hu. unfold login. run. rewrite Hu.
  destruct (verify_password _ _); simpl; [| discriminate].
  destruct (models.email_confirm u); simpl; [| discriminate].
  intros [= <- <-]. split; reflexivity.
Qed.

(** C1 (as the code has it).  A refresh token that still decodes to the
    email of an identity, and is not the one stored for it, is refused with
    401 "Invalid refresh token" and the stored refresh token is cleared.
    From then on every refresh for that identity is refused, whatever token
    is presented and whenever, the stored token staying cleared; a token
    that does not decode is refused with the generic 401.  The next
    successful login stores the refresh token it issues, and that token
    refreshes for as long as it has not expired. *)
Theorem replay_forces_logout (tok : token) (now : Z) (w : world)
  (e : string) (u : models.User) :
  refresh_token_email tok now = Return e ->
  get_user_by_email e (db w) = Some u ->
  models.refresh_token u <> Some tok ->
  let w' := snd (refresh_token tok now w) in
  fst (refresh_token tok now w) = Raise (unauthorized "Invalid refresh token")
  /\ get_user_by_email e (db w') = Some (models.set_refresh_token u None)
  /\ (forall tok' now',
        refresh_token_email tok' now' = Return e ->
        refresh_token tok' now' w' =
        (Raise (unauthorized "Invalid refresh token"), w'))
  /\ (forall tok' now',
        (forall e', refresh_token_email tok' now' <> Return e') ->
        refresh_token tok' now' w' =
        (Raise (unauthorized "Could not validate credentials"), w'))
  /\ (forall body t tk w2,
        schemas.form_username body = e ->
        login body t w' = (Return tk, w2) ->
        get_user_by_email e (db w2) =
          Some (models.set_refresh_token u (Some (schemas.refresh_token tk)))
        /\ forall t', t' <= t + 1800 ->
             exists tk',
               fst (refresh_token (schemas.refresh_token tk) t' w2) =
               Return tk').
Proof.
  intros Hd Hu Hne w'. subst w'.
  rewrite (refresh_known tok now w e u Hd Hu), (differs_true _ _ Hne); simpl.
  set (w' := rewrite_row u (fun row => models.set_refresh_token row None) w).
  assert (Hu' : get_user_by_email e (db w') =
                Some (models.set_refresh_token u None)).
  { unfold w', rewrite_row; simpl.
    now apply (found_after_update e u (models.id u)
                 (fun row => models.set_refresh_token row None)). }
  split; [reflexivity |]. split; [exact Hu' |].
  split; [| split].
  - intros tok' now' Hd'.
    rewrite (refresh_known tok' now' w' e _ Hd' Hu'); simpl. f_equal.
    unfold w', rewrite_row; simpl. unfold with_db; simpl. f_equal.
    now apply (update_again (models.id u)
                 (fun row => models.set_refresh_token row None)).
  - intros tok' now' Hno. now apply refresh_undecodable.
  - intros body t tk w2 Hname Hlogin.
    pose proof (found_email _ _ _ Hu) as Hmail.
    set (rt := issue refresh e None t).
    assert (Hlog : schemas.refresh_token tk = rt /\
                   w2 = rewrite_row (models.set_refresh_token u None)
                          (fun row =>
                             models.set_refresh_token row (Some rt)) w').
    { rewrite <- Hname in Hu'.
      destruct (login_success body t w' w2 tk _ Hu' Hlogin) as [Htk Hw2].
      change (models.email (models.set_refresh_token u None))
        with (models.email u) in Htk, Hw2.
      rewrite Hmail in Htk, Hw2. subst tk. split; [reflexivity | exact Hw2]. }
    destruct Hlog as [Hrt ->]. rewrite Hrt.
    assert (Hu2 : get_user_by_email e
                    (db (rewrite_row (models.set_refresh_token u None)
                           (fun row =>
                              models.set_refresh_token row (Some rt)) w')) =
                  Some (models.set_refresh_token u (Some rt))).
    { unfold rewrite_row at 1. unfold with_db. cbn [db].
      now rewrite (found_after_update e (models.set_refresh_token u None)
                     (models.id (models.set_refresh_token u None))
                     (fun row => models.set_refresh_token row (Some rt))
                     (db w') (fun _ => eq_refl) eq_refl Hu'). }
    split; [exact Hu2 |].
    intros t' Ht'.
    assert (Hdec : refresh_token_email rt t' = Return e).
    { apply (decode_issue_within refresh).
      unfold ttl, truth, timedelta_minutes. lia. }
    rewrite (refresh_known rt t' _ e _ Hdec Hu2).
    assert (Hsame : differs
                      (models.refresh_token
                         (models.set_refresh_token u (Some rt))) rt = false).
    { now apply differs_false. }
    rewrite Hsame. eexists; reflexivity.
Qed.

(** Set-new-password, when the presented token decodes and the identity
    exists. *)
Lemma set_new_password_known (request : schemas.ResetPassword) (now : Z)
  (salt : string) (w : world) (e : string) (u : models.User) :
  reset_token_email (schemas.reset_password_token request) now = Return e ->
  get_user_by_email e (db w) = Some u ->
  set_new_password request now salt w =
  if differs (models.password_reset_token u)
       (schemas.reset_password_token request)
  then (Raise (unauthorized "Invalid reset token"), w)
  else if negb (String.eqb (schemas.new_password request)
                  (schemas.confirm_password request))
  then (Raise (unauthorized "passwords do not match"), w)
  else
    (Return "password update successfully",
     rewrite_row u (fun row => models.set_password_reset_token row None)
       (rewrite_row u
          (fun row =>
             models.set_password row
               (get_hash_password salt (schemas.new_password request))) w)).
Proof.
  intros Hd Hu. unfold set_new_password. run. rewrite Hd, Hu. simpl.
  destruct (differs _ _); [reflexivity |].
  destruct (negb _); reflexivity.
Qed.

(** C3.  Set-new-password succeeds exactly when the presented token decodes
    with scope reset_password to the email of an identity, is the reset
    token stored for that identity, and the two password fields are equal.
    On success the stored reset token is cleared and the stored password is
    the digest of the new one, so that the same request, repeated at any
    instant, fails with status 401. *)
Theorem set_new_password_spec (request : schemas.ResetPassword) (now : Z)
  (salt : string) (w : world) :
  let token := schemas.reset_password_token request in
  ((exists w',
      set_new_password request now salt w =
      (Return "password update successfully", w')) <->
   (exists e u,
      reset_token_email token now = Return e /\
      get_user_by_email e (db w) = Some u /\
      models.password_reset_token u = Some token /\
      schemas.new_password request = schemas.confirm_password request)) /\
  (forall msg w',
     set_new_password request now salt w = (Return msg, w') ->
     exists e u,
       reset_token_email token now = Return e /\
       get_user_by_email e (db w) = Some u /\
       get_user_by_email e (db w') =
         Some (models.set_password_reset_token
                 (models.set_password u
                    (get_hash_password salt (schemas.new_password request)))
                 None) /\
       forall now' salt',
         exists detail,
           set_new_password request now' salt' w' =
           (Raise (unauthorized detail), w')).
Proof.
  intros token.
  assert (Hsucc : forall msg w',
             set_new_password request now salt w = (Return msg, w') ->
             exists e u,
               reset_token_email token now = Return e /\
               get_user_by_email e (db w) = Some u /\
               models.password_reset_token u = Some token /\
               schemas.new_password request = schemas.confirm_password request
               /\ msg = "password update successfully"
               /\ w' = rewrite_row u
                         (fun row => models.set_password_reset_token row None)
                         (rewrite_row u
                            (fun row =>
                               models.set_password row
                                 (get_hash_password salt
                                    (schemas.new_password request))) w)).
  { intros msg w' Hrun.
    destruct (reset_token_email token now) as [e | x] eqn:Hd.
    - destruct (get_user_by_email e (db w)) as [u |] eqn:Hu.
      + rewrite (set_new_password_known request now salt w e u Hd Hu) in Hrun.
        fold token in Hrun.
        destruct (differs (models.password_reset_token u) token) eqn:Hdiff;
          [discriminate |].
        destruct (String.eqb_spec (schemas.new_password request)
                    (schemas.confirm_password request)) as [Hpw | Hpw];
          simpl in Hrun; [| discriminate].
        injection Hrun as <- <-. exists e, u.
        apply differs_false in Hdiff. repeat split; assumption.
      + exfalso. revert Hrun. unfold set_new_password. run.
        fold token. rewrite Hd, Hu. discriminate.
    - exfalso. revert Hrun. unfold set_new_password. run.
      fold token. rewrite Hd. discriminate. }
  split; [split |].
  - intros [w' Hrun].
    destruct (Hsucc _ _ Hrun) as (e & u & Hd & Hu & Htok & Hpw & _).
    now exists e, u.
  - intros (e & u & Hd & Hu & Htok & Hpw).
    rewrite (set_new_password_known request now salt w e u Hd Hu).
    fold token. apply differs_false in Htok. rewrite Htok, Hpw.
    rewrite String.eqb_refl. simpl. eexists; reflexivity.
  - intros msg w' Hrun.
    destruct (Hsucc _ _ Hrun) as (e & u & Hd & Hu & Htok & Hpw & _ & ->).
    exists e, u. split; [exact Hd |]. split; [exact Hu |].
    set (digest := get_hash_password salt (schemas.new_password request)).
    set (w1 := rewrite_row u (fun row => models.set_password row digest) w).
    assert (Hu1 : get_user_by_email e (db w1) =
                  Some (models.set_password u digest)).
    { unfold w1, rewrite_row, with_db. cbn [db].
      now apply (found_after_update e u (models.id u)
                   (fun row => models.set_password row digest)). }
    set (w2 := rewrite_row u
                 (fun row => models.set_password_reset_token row None) w1).
    assert (Hu2 : get_user_by_email e (db w2) =
                  Some (models.set_password_reset_token
                          (models.set_password u digest) None)).
    { unfold w2, rewrite_row, with_db. cbn [db].
      now apply (found_after_update e (models.set_password u digest)
                   (models.id u)
                   (fun row => models.set_password_reset_token row None)). }
    split; [exact Hu2 |].
    intros now' salt'.
    destruct (reset_token_email token now') as [e' | x] eqn:Hd'.
    + assert (e' = e) as ->
        by exact (decode_same_subject reset_password token now' now _ _
                    Hd' Hd).
      rewrite (set_new_password_known request now' salt' w2 e _ Hd' Hu2).
      simpl. eexists; reflexivity.
    + apply (decode_raises reset_password) in Hd' as Hx; [| discriminate].
      subst x. unfold set_new_password, bind, lift. fold token. rewrite Hd'.
      eexists; reflexivity.
Qed.

Lemma confirmed_email_known (tok : token) (now : Z) (w : world)
  (e : string) (u : models.User) :
  get_email_from_token tok now = Return e ->
  get_user_by_email e (db w) = Some u ->
  confirmed_email tok now w =
  if models.email_confirm u
  then (Return "Your email is already confirmed", w)
  else (Return "Email confirmed",
        rewrite_row u (fun row => models.set_email_confirm row true) w).
Proof.
  intros Hd Hu. unfold confirmed_email. run. rewrite Hd, Hu. simpl.
  destruct (models.email_confirm u); reflexivity.
Qed.

Lemma password_reset_email_known (tok : token) (now : Z) (w : world)
  (e : string) (u : models.User) :
  get_email_from_token tok now = Return e ->
  get_user_by_email e (db w) = Some u ->
  password_reset_email tok now w =
  (Return (issue reset_password e None now),
   rewrite_row u
     (fun row =>
        models.set_password_reset_token row
          (Some (issue reset_password e None now))) w).
Proof.
  intros Hd Hu. unfold password_reset_email. run. rewrite Hd, Hu. simpl.
  now rewrite (found_email _ _ _ Hu).
Qed.

(** C6.  The reader of email tokens does not look at the scope claim: any
    token [jwt.decode] lets through is read as its subject.  So a token of
    any scope, an access token for one, issued for the email of an identity
    and not yet expired, confirms that identity's email and is exchanged
    for a fresh reset token, which is stored.  The readers of the access,
    refresh and reset_password scopes each refuse a token whose scope
    claim is not theirs. *)
Theorem email_reader_ignores_scope :
  (forall tok now p e,
     jwt.decode tok SECRET_KEY ALGORITHM now = Return p ->
     dict_get "sub" p = Some (JStr e) ->
     get_email_from_token tok now = Return e) /\
  (forall S E d t0 t w u,
     t <= t0 + ttl S d ->
     get_user_by_email E (db w) = Some u ->
     let tok := issue S E d t0 in
     get_email_from_token tok t = Return E /\
     (models.email_confirm u = false ->
      confirmed_email tok t w =
      (Return "Email confirmed",
       rewrite_row u (fun row => models.set_email_confirm row true) w)) /\
     password_reset_email tok t w =
     (Return (issue reset_password E None t),
      rewrite_row u
        (fun row =>
           models.set_password_reset_token row
             (Some (issue reset_password E None t))) w)) /\
  (forall S c tok now p,
     scope_claim S = Some c ->
     jwt.decode tok SECRET_KEY ALGORITHM now = Return p ->
     dict_get "scope" p <> Some (JStr c) ->
     decode S tok now = Raise (rejection S)).
Proof.
  split; [| split].
  - intros tok now p e Hd Hsub. unfold get_email_from_token.
    rewrite Hd. unfold subscript; simpl. now rewrite Hsub.
  - intros S E d t0 t w u Ht Hu tok.
    assert (Hread : get_email_from_token tok t = Return E).
    { unfold get_email_from_token, tok.
      now rewrite (issue_decodes S E d t0 t Ht). }
    split; [exact Hread |]. split.
    + intros Hconf.
      now rewrite (confirmed_email_known tok t w E u Hread Hu), Hconf.
    + exact (password_reset_email_known tok t w E u Hread Hu).
  - intros S c tok now p Hc Hd Hscope.
    apply decode_rejects; [intros ->; discriminate |].
    intros e (q & -> & Hv & _ & Hq).
    rewrite decode_signed, Hv in Hd. injection Hd as <-.
    apply Hscope. now apply Hq.
Qed.

End flow_facts.
End flow_facts.

(** ** The properties on the concrete deployment *)

Module examples.
Import AuthToken scoped fixture.

Lemma test_pwd_context_contract : PasswordHasher test_pwd_context.
Proof.
  split; intros salt password; simpl.
  - apply String.eqb_refl.
  - intros Heq. apply (f_equal String.length) in Heq. simpl in Heq. lia.
Qed.

Lemma tokens_differ : R1 <> R2.
Proof. intros Heq. vm_compute in Heq. discriminate Heq. Qed.

(** Tokens are a function of the email, the scope and the second of issue:
    a refresh in the second of the login hands back the stored token. *)
Lemma rotation_within_a_second :
  fst (refresh_token R1 20 logged_in) =
    Return (routes_auth.bearer (issue access address None 20) R1) /\
  repository_user.get_user_by_email address
    (db (snd (refresh_token R1 20 logged_in))) =
    Some (models.set_refresh_token identity (Some R1)).
Proof.
  split; vm_compute; reflexivity.
Qed.

(** C1, the claim as worded, fails for a superseded token that has expired:
    [R1], superseded by [R2] at second 600, expires at second 1820.
    Presented at second 1821 it is refused with the generic 401, the stored
    refresh token is still [R2], and [R2] refreshes a second later. *)
Lemma expired_replay_keeps_session :
  repository_user.get_user_by_email address (db logged_in) =
    Some (models.set_refresh_token identity (Some R1)) /\
  fst (refresh_token R1 600 logged_in) =
    Return (routes_auth.bearer (issue access address None 600) R2) /\
  R1 <> R2 /\
  refresh_token R1 1821 rotated =
    (Raise (routes_auth.unauthorized "Could not validate credentials"),
     rotated) /\
  repository_user.get_user_by_email address (db rotated) =
    Some (models.set_refresh_token identity (Some R2)) /\
  fst (refresh_token R2 1822 rotated) =
    Return (routes_auth.bearer (issue access address None 1822)
              (issue refresh address None 1822)).
Proof.
  split; [vm_compute; reflexivity |].
  split; [vm_compute; reflexivity |].
  split; [exact tokens_differ |].
  split; [vm_compute; reflexivity |].
  split; vm_compute; reflexivity.
Qed.

(** The superseded [R1] presented while it still decodes, at second 700. *)
Lemma replay_forces_logout_witness :
  fst (refresh_token R1 700 rotated) =
    Raise (routes_auth.unauthorized "Invalid refresh token") /\
  repository_user.get_user_by_email address
    (db (snd (refresh_token R1 700 rotated))) =
    Some (models.set_refresh_token
            (models.set_refresh_token identity (Some R2)) None) /\
  refresh_token R2 800 (snd (refresh_token R1 700 rotated)) =
    (Raise (routes_auth.unauthorized "Invalid refresh token"),
     snd (refresh_token R1 700 rotated)).
Proof.
  assert (Hdec : refresh_token_email (settings := test_settings) R1 700 =
                 Return address) by (vm_compute; reflexivity).
  assert (Hrow : repository_user.get_user_by_email address (db rotated) =
                 Some (models.set_refresh_token identity (Some R2)))
    by (vm_compute; reflexivity).
  assert (Hne : models.refresh_token
                  (models.set_refresh_token identity (Some R2)) <> Some R1).
  { intros Heq. vm_compute in Heq. discriminate Heq. }
  destruct (flow_facts.replay_forces_logout (settings := test_settings)
              (pwd_context := test_pwd_context)
              R1 700 rotated address _ Hdec Hrow Hne)
    as (Hfail & Hcleared & Hsticky & _).
  split; [exact Hfail |]. split; [exact Hcleared |].
  apply Hsticky. vm_compute; reflexivity.
Defined.



Lemma set_new_password_spec_witness :
  exists w',
    set_new_password new_password_request 40 "salt" reset_pending =
    (Return "password update successfully", w').
Proof.
  apply (proj1 (flow_facts.set_new_password_spec (settings := test_settings)
                  (pwd_context := test_pwd_context)
                  new_password_request 40 "salt" reset_pending)).
  exists address, (models.set_password_reset_token identity (Some PR)).
  repeat split; vm_compute; reflexivity.
Defined.

Lemma sign_up_twice_witness :
  fst (sign_up user base_url "salt2" signed_up) =
    Raise (HTTPException 409 "This email is already in use" None) /\
  snd (sign_up user base_url "salt2" signed_up) = signed_up /\
  length (table_facts.rows_of address
            (db (snd (sign_up user base_url "salt2" signed_up)))) = 1%nat.
Proof.
  destruct (flow_facts.sign_up_twice (pwd_context := test_pwd_context)
              (gravatar := test_gravatar)
              empty user user base_url base_url "salt" "salt2"
              eq_refl table_facts.unique_emails_nil)
    as (Hconflict & Hsame & Hone & _).
  split; [exact Hconflict |]. split; [exact Hsame | exact Hone].
Defined.

(** C5, the claim as worded, fails for a wrong password: the identity of
    [signed_up] is not confirmed, and a login with a password that does not
    verify is refused with "Invalid password", which is not the refusal
    for an unconfirmed email. *)
Lemma unconfirmed_wrong_password :
  repository_user.get_user_by_email address (db signed_up) =
    Some unconfirmed_identity /\
  models.email_confirm unconfirmed_identity = false /\
  login (form "bad") 20 signed_up =
    (Raise (routes_auth.unauthorized "Invalid password"), signed_up) /\
  routes_auth.unauthorized "Invalid password" <>
  routes_auth.unauthorized "check example@example.com to Confirm account".
Proof.
  split; [vm_compute; reflexivity |].
  split; [reflexivity |].
  split; [vm_compute; reflexivity | discriminate].
Qed.

Lemma login_unconfirmed_witness :
  login (form "qwerty") 20 signed_up =
    (Raise (routes_auth.unauthorized
              "check example@example.com to Confirm account"), signed_up) /\
  login (form "bad") 20 signed_up =
    (Raise (routes_auth.unauthorized "Invalid password"), signed_up).
Proof.
  assert (Hrow : repository_user.get_user_by_email address (db signed_up) =
                 Some unconfirmed_identity) by (vm_compute; reflexivity).
  split.
  - exact (flow_facts.login_unconfirmed (settings := test_settings)
             (pwd_context := test_pwd_context)
             signed_up (form "qwerty") 20 unconfirmed_identity Hrow eq_refl).
  - exact (flow_facts.login_unconfirmed (settings := test_settings)
             (pwd_context := test_pwd_context)
             signed_up (form "bad") 20 unconfirmed_identity Hrow eq_refl).
Defined.

(** An access token, presented as a confirmation link and as a reset
    link; and presented to the reader of refresh tokens. *)
Lemma email_reader_ignores_scope_witness :
  confirmed_email (issue access address None 5) 10 signed_up =
    (Return "Email confirmed", confirmed) /\
  fst (password_reset_email (issue access address None 5) 10 signed_up) =
    Return (issue reset_password address None 10) /\
  decode refresh (issue access address None 5) 10 =
    Raise (rejection refresh).
Proof.
  destruct (flow_facts.email_reader_ignores_scope (settings := test_settings))
    as (_ & Hroutes & Hscoped).
  assert (Hrow : repository_user.get_user_by_email address (db signed_up) =
                 Some unconfirmed_identity) by (vm_compute; reflexivity).
  assert (Hlive : 10 <= 5 + ttl access None)
    by (vm_compute; discriminate).
  destruct (Hroutes access address None 5 10 signed_up unconfirmed_identity
              Hlive Hrow) as (_ & Hconfirm & Hreset).
  split; [| split].
  - refine (eq_trans (Hconfirm eq_refl) _). vm_compute. reflexivity.
  - refine (eq_trans (f_equal fst Hreset) _). reflexivity.
  - apply (Hscoped refresh "refresh_token" _ 10
             [("sub", JStr address); ("iat", JInt 5); ("exp", JInt 1805);
              ("scope", JStr "access_token")]).
    + reflexivity.
    + vm_compute. reflexivity.
    + vm_compute. discriminate.
Defined.

(** A valid access token for an email nobody signed up with. *)
Lemma guard_unknown_identity_witness :
  get_current_user (issue access "ghost@example.com" None 0) 10 empty =
  (Raise (AttributeError "'NoneType' object has no attribute 'id'"), empty).
Proof.
  apply (guard_facts.guard_unknown_identity (settings := test_settings)
           _ 10 empty "ghost@example.com").
  - vm_compute. reflexivity.
  - reflexivity.
  - reflexivity.
Defined.


Lemma sign_up_stores_digest_witness :
  exists u w',
    sign_up user base_url "salt" empty = (Return u, w') /\
    repository_user.get_user_by_email address (db w') = Some u /\
    models.password u = "$2b$12$qwerty" /\
    AuthPassword.verify_password (pwd_context := test_pwd_context)
      "qwerty" (models.password u) = true /\
    models.password u <> "qwerty".
Proof.
  exact (flow_facts.sign_up_stores_digest (pwd_context := test_pwd_context)
           (gravatar := test_gravatar) empty user base_url "salt"
           test_pwd_context_contract eq_refl).
Defined.

(** Tokens for an email nobody signed up with, at the three routes. *)
Lemma absent_identity_dereferenced_witness :
  refresh_token (issue refresh "ghost@example.com" None 0) 10 confirmed =
    (Raise (AttributeError
              "'NoneType' object has no attribute 'refresh_token'"),
     confirmed) /\
  password_reset_email (issue email_verification "ghost@example.com" None 0)
    10 confirmed =
    (Raise (AttributeError "'NoneType' object has no attribute 'email'"),
     confirmed).
Proof.
  destruct (flow_facts.absent_identity_dereferenced
              (settings := test_settings) (pwd_context := test_pwd_context)
              confirmed 10 "ghost@example.com")
    as (Hrefresh & Hexchange & _).
  - vm_compute. reflexivity.
  - split; [apply Hrefresh | apply Hexchange]; vm_compute; reflexivity.
Defined.

End examples.

(** * The rest of the authentication code

    Properties of the routes and of the guard beyond the ones above, and
    the functions of [src/routes/auth.py] and [src/services/email.py] not
    yet embedded. *)

(** ** The cache of the guard *)

Module cache_facts.
Import AuthToken.

Lemma get_set_expire (key : string) (v seconds now now' : Z)
  (c : redis.Redis) :
  redis.get key now' (redis.expire key seconds now (redis.set key v c)) =
  if now' <=? now + seconds then Some v else None.
Proof.
  induction c as [| [k e] c IH]; simpl.
  - rewrite String.eqb_refl. simpl. rewrite String.eqb_refl.
    unfold redis.live. simpl. reflexivity.
  - destruct (String.eqb k key) eqn:Hk; simpl; rewrite Hk; simpl;
      rewrite ?Hk.
    + unfold redis.live. simpl. reflexivity.
    + exact IH.
Qed.

Section cache_facts.
Context {settings : Settings}.

(** The world the guard leaves after a miss for [e] resolved to [n]. *)
Definition cached (e : string) (n now : Z) (w : world) : world :=
  with_r (with_r w (redis.set e n (r w)))
    (redis.expire e 60 now (redis.set e n (r w))).

Lemma guard_miss (tok : token) (now : Z) (w : world) (e : string)
  (u : models.User) :
  get_current_user_email tok now = Return e ->
  redis.get e now (r w) = None ->
  repository_user.get_user_by_email e (db w) = Some u ->
  get_current_user tok now w =
  (Return (id_int (models.id u)), cached e (models.id u) now w).
Proof.
  intros Hd Hc Hu. unfold get_current_user, bind, lift, r_read, query.
  rewrite Hd, Hc, Hu. reflexivity.
Qed.

Lemma guard_hit (tok : token) (now : Z) (w : world) (e : string) (n : Z) :
  get_current_user_email tok now = Return e ->
  redis.get e now (r w) = Some n ->
  get_current_user tok now w = (Return (id_str n), w).
Proof.
  intros Hd Hc. unfold get_current_user, bind, lift, r_read.
  now rewrite Hd, Hc.
Qed.

(** X1.  The guard, for a valid access token of a stored identity that is
    not cached: it returns the primary key and the table is untouched.
    Up to and including second [now + 60] every valid token for that email
    is answered from the cache, with the key as text and the world
    unchanged -- the expiry is not pushed back by a hit -- and this whatever
    the table then holds.  Past second [now + 60] the table is read
    again. *)
Theorem guard_cache_cycle (tok : token) (now : Z) (w : world) (e : string)
  (u : models.User) :
  get_current_user_email tok now = Return e ->
  redis.get e now (r w) = None ->
  repository_user.get_user_by_email e (db w) = Some u ->
  let w1 := snd (get_current_user tok now w) in
  fst (get_current_user tok now w) = Return (id_int (models.id u)) /\
  db w1 = db w /\
  (forall tok' now' w2,
     get_current_user_email tok' now' = Return e ->
     r w2 = r w1 -> now' <= now + 60 ->
     get_current_user tok' now' w2 = (Return (id_str (models.id u)), w2)) /\
  (forall tok' now',
     get_current_user_email tok' now' = Return e ->
     now + 60 < now' ->
     fst (get_current_user tok' now' w1) = Return (id_int (models.id u))).
Proof.
  intros Hd Hc Hu w1. subst w1.
  rewrite (guard_miss tok now w e u Hd Hc Hu). simpl.
  split; [reflexivity |]. split; [reflexivity |]. split.
  - intros tok' now' w2 Hd' Hr Hlt. apply (guard_hit tok' now' w2 e); auto.
    rewrite Hr, get_set_expire.
    destruct (Z.leb_spec now' (now + 60)); [reflexivity | lia].
  - intros tok' now' Hd' Hge.
    rewrite (guard_miss tok' now' _ e u Hd'); [reflexivity | | exact Hu].
    simpl. rewrite get_set_expire.
    destruct (Z.leb_spec now' (now + 60)); [lia | reflexivity].
Qed.

End cache_facts.
End cache_facts.

(** ** Login, rotation and confirmation *)

Module session_facts.
Import AuthPassword AuthToken scoped jwt_facts table_facts routes_auth.
Import repository_user flow_facts.

Section session_facts.
Context {settings : Settings} {pwd_context : CryptContext}
  {gravatar : Gravatar}.

Ltac run := unfold bind, lift, query, on_db, raise, ret, add_task; simpl.

Lemma login_known (body : schemas.OAuth2PasswordRequestForm) (now : Z)
  (w : world) (u : models.User) :
  get_user_by_email (schemas.form_username body) (db w) = Some u ->
  login body now w =
  if negb (verify_password (schemas.form_password body) (models.password u))
  then (Raise (unauthorized "Invalid password"), w)
  else if negb (models.email_confirm u)
  then (Raise (unauthorized
                 ("check " ++ models.email u ++ " to Confirm account")), w)
  else
    (Return (bearer (issue access (models.email u) None now)
               (issue refresh (models.email u) None now)),
     rewrite_row u
       (fun row =>
          models.set_refresh_token row
            (Some (issue refresh (models.email u) None now))) w).
Proof.
  intros Hu. unfold login. run. rewrite Hu.
  destruct (verify_password _ _); simpl; [| reflexivity].
  destruct (models.email_confirm u); reflexivity.
Qed.

Lemma login_unknown (body : schemas.OAuth2PasswordRequestForm) (now : Z)
  (w : world) :
  get_user_by_email (schemas.form_username body) (db w) = None ->
  login body now w = (Raise (unauthorized "Invalid email"), w).
Proof.
  intros Hu. unfold login. run. now rewrite Hu.
Qed.

(** X2.  Login returns a token pair exactly when the email has an identity,
    the password verifies against its stored digest and the email is
    confirmed; the pair is the access and refresh tokens issued for that
    email at this instant, and the refresh token is stored.  Every refusal
    has status 401 and leaves the world as it was. *)
Theorem login_outcomes (body : schemas.OAuth2PasswordRequestForm) (now : Z)
  (w : world) :
  (forall tk w',
     login body now w = (Return tk, w') <->
     exists u,
       get_user_by_email (schemas.form_username body) (db w) = Some u /\
       verify_password (schemas.form_password body) (models.password u)
         = true /\
       models.email_confirm u = true /\
       tk = bearer (issue access (models.email u) None now)
              (issue refresh (models.email u) None now) /\
       w' = rewrite_row u
              (fun row =>
                 models.set_refresh_token row
                   (Some (issue refresh (models.email u) None now))) w) /\
  (forall x w',
     login body now w = (Raise x, w') ->
     w' = w /\ exists detail, x = unauthorized detail).
Proof.
  destruct (get_user_by_email (schemas.form_username body) (db w))
    as [u |] eqn:Hu.
  - rewrite (login_known body now w u Hu).
    destruct (verify_password _ _) eqn:Hv; simpl;
      [destruct (models.email_confirm u) eqn:Hc; simpl |].
    + split.
      * intros tk w'. split.
        -- intros [= <- <-]. exists u. repeat split; assumption.
        -- intros (u' & [= <-] & _ & _ & -> & ->). reflexivity.
      * intros x w' [=].
    + split.
      * intros tk w'. split; [discriminate |].
        intros (u' & [= <-] & _ & Hc' & _). congruence.
      * intros x w' [= <- <-]. split; [reflexivity | eexists; reflexivity].
    + split.
      * intros tk w'. split; [discriminate |].
        intros (u' & [= <-] & Hv' & _). congruence.
      * intros x w' [= <- <-]. split; [reflexivity | eexists; reflexivity].
  - rewrite (login_unknown body now w Hu). split.
    + intros tk w'. split; [discriminate |].
      intros (u' & [=] & _).
    + intros x w' [= <- <-]. split; [reflexivity | eexists; reflexivity].
Qed.

(** X3.  The access token a login returns opens the guard: presented at
    any instant up to 30 minutes after the login, with no cache entry for
    the email, the guard answers with the primary key of the identity that
    logged in.  Later than that it answers with the generic 401. *)
Theorem login_then_guard (body : schemas.OAuth2PasswordRequestForm)
  (now : Z) (w w' : world) (tk : schemas.Token) :
  login body now w = (Return tk, w') ->
  exists u,
    get_user_by_email (schemas.form_username body) (db w) = Some u /\
    (forall t,
       t <= now + 1800 ->
       redis.get (models.email u) t (r w') = None ->
       fst (get_current_user (schemas.access_token tk) t w') =
       Return (id_int (models.id u))) /\
    (forall t,
       now + 1800 < t ->
       get_current_user (schemas.access_token tk) t w' =
       (Raise credentials_exception, w')).
Proof.
  intros Hlogin.
  destruct (get_user_by_email (schemas.form_username body) (db w))
    as [u |] eqn:Hu;
    [| rewrite (login_unknown body now w Hu) in Hlogin; discriminate].
  destruct (login_success body now w w' tk u Hu Hlogin) as [-> ->].
  exists u. split; [reflexivity |].
  pose proof (found_email _ _ _ Hu) as Hmail.
  assert (Hu' : get_user_by_email (models.email u)
                  (db (rewrite_row u
                         (fun row =>
                            models.set_refresh_token row
                              (Some (issue refresh (models.email u) None now)))
                         w)) =
                Some (models.set_refresh_token u
                        (Some (issue refresh (models.email u) None now)))).
  { unfold rewrite_row, with_db. cbn [db]. rewrite <- Hmail in Hu.
    now apply (found_after_update _ u (models.id u)
                 (fun row =>
                    models.set_refresh_token row
                      (Some (issue refresh (models.email u) None now)))). }
  split.
  - intros t Ht Hcache.
    assert (Hd : get_current_user_email
                   (issue access (models.email u) None now) t =
                 Return (models.email u)).
    { apply (decode_issue_within access).
      unfold ttl, truth, timedelta_minutes. lia. }
    cbn [schemas.access_token bearer].
    now rewrite (cache_facts.guard_miss _ t _ _ _ Hd Hcache Hu').
  - intros t Ht.
    assert (Hd : get_current_user_email
                   (issue access (models.email u) None now) t =
                 Raise credentials_exception).
    { apply (decode_issue_after access).
      unfold ttl, truth, timedelta_minutes. lia. }
    cbn [schemas.access_token bearer].
    unfold get_current_user, bind, lift. now rewrite Hd.
Qed.

(** X4.  Rotation: a refresh with the stored token, while it decodes,
    returns a new pair and stores the new refresh token in place of the
    presented one; the new token refreshes in turn for 30 minutes, and the
    presented one, when it was issued in another second, is from then on
    refused as "Invalid refresh token". *)
Theorem refresh_rotates (tok : token) (now : Z) (w : world) (e : string)
  (u : models.User) :
  refresh_token_email tok now = Return e ->
  get_user_by_email e (db w) = Some u ->
  models.refresh_token u = Some tok ->
  exists tk w',
    refresh_token tok now w = (Return tk, w') /\
    tk = bearer (issue access e None now) (issue refresh e None now) /\
    get_user_by_email e (db w') =
      Some (models.set_refresh_token u (Some (schemas.refresh_token tk))) /\
    (forall t, t <= now + 1800 ->
       exists tk', fst (refresh_token (schemas.refresh_token tk) t w') =
                   Return tk') /\
    (forall d t0 t,
       tok = issue refresh e d t0 -> t0 <> now ->
       refresh_token_email tok t = Return e ->
       fst (refresh_token tok t w') =
       Raise (unauthorized "Invalid refresh token")).
Proof.
  intros Hd Hu Hstored.
  set (rt := issue refresh e None now).
  set (w' := rewrite_row u
               (fun row => models.set_refresh_token row (Some rt)) w).
  exists (bearer (issue access e None now) rt), w'.
  assert (Hrun : refresh_token tok now w =
                 (Return (bearer (issue access e None now) rt), w')).
  { rewrite (refresh_known tok now w e u Hd Hu).
    apply differs_false in Hstored. now rewrite Hstored. }
  assert (Hu' : get_user_by_email e (db w') =
                Some (models.set_refresh_token u (Some rt))).
  { unfold w', rewrite_row, with_db. cbn [db].
    now apply (found_after_update e u (models.id u)
                 (fun row => models.set_refresh_token row (Some rt))). }
  split; [exact Hrun |]. split; [reflexivity |].
  cbn [schemas.refresh_token bearer]. split; [exact Hu' |]. split.
  - intros t Ht.
    assert (Hdec : refresh_token_email rt t = Return e).
    { apply (decode_issue_within refresh).
      unfold ttl, truth, timedelta_minutes. lia. }
    rewrite (refresh_known rt t w' e _ Hdec Hu').
    assert (Hsame : differs
                      (models.refresh_token
                         (models.set_refresh_token u (Some rt))) rt = false)
      by now apply differs_false.
    rewrite Hsame. eexists; reflexivity.
  - intros d t0 t Htok Hne Hdec.
    rewrite (refresh_known tok t w' e _ Hdec Hu').
    rewrite differs_true; [reflexivity |].
    cbn [models.refresh_token models.set_refresh_token].
    intros [= Heq]. apply Hne. unfold rt in Heq. rewrite Htok in Heq.
    rewrite !issue_payload in Heq. now injection Heq.
Qed.

(** The reader of email tokens turns a [JWTError] of [jwt.decode] into its
    422 and lets any other exception through. *)
Lemma email_reader_refuses (tok : token) (now : Z) (x : exn) :
  jwt.decode tok SECRET_KEY ALGORITHM now = Raise x ->
  get_email_from_token tok now =
  if is_JWTError x
  then Raise (HTTPException 422 "Invalid token for email verification" None)
  else Raise x.
Proof.
  intros Hd. unfold get_email_from_token. rewrite Hd. reflexivity.
Qed.

(** X5.  The confirmation route.  A token [jwt.decode] refuses with a
    [JWTError] (or one of its subclasses) is answered with 422; any other
    exception of [jwt.decode] -- the [TypeError] of a null [exp], for one --
    leaves the route as it is; a token for an email without identity is
    answered with 400; in these cases nothing changes.  For an identity the
    route leaves it confirmed, whatever it was, and every later visit of a
    valid link for that email answers "Your email is already confirmed" and
    changes nothing. *)
Theorem confirmed_email_outcomes (tok : token) (now : Z) (w : world) :
  (forall x,
     jwt.decode tok SECRET_KEY ALGORITHM now = Raise x ->
     confirmed_email tok now w =
     (if is_JWTError x
      then Raise (HTTPException 422 "Invalid token for email verification"
                    None)
      else Raise x,
      w)) /\
  (forall e,
     get_email_from_token tok now = Return e ->
     (get_user_by_email e (db w) = None ->
      confirmed_email tok now w =
      (Raise (HTTPException 400 "Verification error" None), w)) /\
     (forall u,
        get_user_by_email e (db w) = Some u ->
        let w' := snd (confirmed_email tok now w) in
        (exists msg, fst (confirmed_email tok now w) = Return msg) /\
        get_user_by_email e (db w') =
          Some (models.set_email_confirm u true) /\
        (forall tok' now',
           get_email_from_token tok' now' = Return e ->
           confirmed_email tok' now' w' =
           (Return "Your email is already confirmed", w')))).
Proof.
  split.
  - intros x Hd. unfold confirmed_email, bind, lift.
    rewrite (email_reader_refuses tok now x Hd).
    now destruct (is_JWTError x).
  - intros e Hd. split.
    + intros Hu. unfold confirmed_email. run. now rewrite Hd, Hu.
    + intros u Hu w'. subst w'.
      rewrite (confirmed_email_known tok now w e u Hd Hu).
      destruct (models.email_confirm u) eqn:Hc; simpl.
      * assert (Hsame : models.set_email_confirm u true = u).
        { destruct u; simpl in *. now rewrite Hc. }
        rewrite Hsame. split; [eexists; reflexivity |].
        split; [exact Hu |].
        intros tok' now' Hd'.
        now rewrite (confirmed_email_known tok' now' w e u Hd' Hu), Hc.
      * split; [eexists; reflexivity |].
        assert (Hu' : get_user_by_email e
                        (db (rewrite_row u
                               (fun row => models.set_email_confirm row true)
                               w)) =
                      Some (models.set_email_confirm u true)).
        { unfold rewrite_row, with_db. cbn [db].
          now apply (found_after_update e u (models.id u)
                       (fun row => models.set_email_confirm row true)). }
        split; [exact Hu' |].
        intros tok' now' Hd'.
        now rewrite (confirmed_email_known tok' now' _ e _ Hd' Hu').
Qed.

(** X6.  A validly signed, unexpired payload without a subject: the reader
    of email tokens lets the [KeyError] of [payload["sub"]] through, since
    it catches [JWTError] only, and so do the two routes that use it; the
    readers of refresh and reset tokens, whose [except] is bare, answer
    with their 401. *)
Theorem subject_missing (tok : token) (now : Z) (p : dict) (w : world) :
  jwt.decode tok SECRET_KEY ALGORITHM now = Return p ->
  dict_get "sub" p = None ->
  get_email_from_token tok now = Raise (KeyError "sub") /\
  confirmed_email tok now w = (Raise (KeyError "sub"), w) /\
  password_reset_email tok now w = (Raise (KeyError "sub"), w) /\
  refresh_token_email tok now =
    Raise (unauthorized "Could not validate credentials") /\
  reset_token_email tok now =
    Raise (unauthorized "Could not validate credentials").
Proof.
  intros Hd Hsub.
  assert (Hread : get_email_from_token tok now = Raise (KeyError "sub")).
  { unfold get_email_from_token. rewrite Hd. unfold subscript; simpl.
    now rewrite Hsub. }
  assert (Hno : forall s e, ~ accepted s tok now e).
  { intros s e (q & -> & Hv & Hq & _).
    rewrite decode_signed, Hv in Hd. injection Hd as <-. congruence. }
  split; [exact Hread |].
  split; [unfold confirmed_email, bind, lift; now rewrite Hread |].
  split; [unfold password_reset_email, bind, lift; now rewrite Hread |].
  split.
  - apply (decode_rejects refresh); [discriminate | apply Hno].
  - apply (decode_rejects reset_password); [discriminate | apply Hno].
Qed.

(** X7.  The request for a password reset: for an email without identity
    the answer is 404 and nothing is queued; for an identity one reset
    mail is queued, addressed to the stored email and name, and neither
    the table nor the cache changes -- no reset token is stored yet. *)
Theorem password_reset_outcomes (email base_url : string) (w : world) :
  (get_user_by_email email (db w) = None ->
   password_reset email base_url w =
   (Raise (HTTPException 404 "no user with such email" None), w)) /\
  (forall u,
     get_user_by_email email (db w) = Some u ->
     let out := password_reset email base_url w in
     fst out = Return ("Reset instruction was sending to " ++ email) /\
     db (snd out) = db w /\ r (snd out) = r w /\
     background_tasks (snd out) =
       (background_tasks w ++
        [pass_reset_email email (models.username u) base_url])%list).
Proof.
  split.
  - intros Hu. unfold password_reset. run. now rewrite Hu.
  - intros u Hu out. subst out. unfold password_reset. run. rewrite Hu.
    simpl. rewrite (found_email _ _ _ Hu). repeat split.
Qed.

(** The world after the exchange of a reset link for [u] at [t]. *)
Definition exchanged (u : models.User) (e : string) (t : Z) (w : world)
  : world :=
  rewrite_row u
    (fun row =>
       models.set_password_reset_token row
         (Some (issue reset_password e None t))) w.

Lemma exchanged_row (u : models.User) (e : string) (t : Z) (w : world) :
  get_user_by_email e (db w) = Some u ->
  get_user_by_email e (db (exchanged u e t w)) =
  Some (models.set_password_reset_token u
          (Some (issue reset_password e None t))).
Proof.
  intros Hu. unfold exchanged, rewrite_row, with_db. cbn [db].
  now apply (found_after_update e u (models.id u)
               (fun row =>
                  models.set_password_reset_token row
                    (Some (issue reset_password e None t)))).
Qed.

Lemma reset_token_live (e : string) (t t' : Z) :
  t' <= t + 300 ->
  reset_token_email (issue reset_password e None t) t' = Return e.
Proof.
  intros Ht. apply (decode_issue_within reset_password).
  unfold ttl, truth, timedelta_minutes. lia.
Qed.

(** X8.  The reset flow end to end.  The exchange of a mailed link for an
    identity returns a reset token and stores it; within five minutes,
    set-new-password with that token and two equal passwords succeeds;
    after it the stored password is the digest of the new one and the
    reset token is cleared.  With a hasher that keeps its contract and a
    confirmed email, a login with the new password then succeeds. *)
Theorem reset_flow (tok : token) (t : Z) (w : world) (e : string)
  (u : models.User) (request : schemas.ResetPassword) (t' : Z)
  (salt : string) :
  get_email_from_token tok t = Return e ->
  get_user_by_email e (db w) = Some u ->
  let pr := issue reset_password e None t in
  let w1 := snd (password_reset_email tok t w) in
  schemas.reset_password_token request = pr ->
  schemas.new_password request = schemas.confirm_password request ->
  t' <= t + 300 ->
  fst (password_reset_email tok t w) = Return pr /\
  exists w2,
    set_new_password request t' salt w1 =
      (Return "password update successfully", w2) /\
    get_user_by_email e (db w2) =
      Some (models.set_password_reset_token
              (models.set_password u
                 (get_hash_password salt (schemas.new_password request)))
              None) /\
    (PasswordHasher pwd_context -> models.email_confirm u = true ->
     forall now,
       exists tk w3,
         login {| schemas.form_username := e;
                  schemas.form_password := schemas.new_password request |}
           now w2 = (Return tk, w3)).
Proof.
  intros Hd Hu pr w1 Htok Hpw Ht. subst w1.
  rewrite (password_reset_email_known tok t w e u Hd Hu). cbn [fst snd].
  fold (exchanged u e t w). split; [reflexivity |].
  pose proof (exchanged_row u e t w Hu) as Hu1.
  pose proof (reset_token_live e t t' Ht) as Hlive.
  fold pr in Hu1, Hlive. rewrite <- Htok in Hlive.
  rewrite (set_new_password_known request t' salt _ e _ Hlive Hu1).
  assert (Hsame : differs
                    (models.password_reset_token
                       (models.set_password_reset_token u (Some pr)))
                    (schemas.reset_password_token request) = false).
  { apply differs_false. now rewrite Htok. }
  rewrite Hsame, Hpw, String.eqb_refl. cbn [negb].
  eexists. split; [reflexivity |].
  set (digest := get_hash_password salt (schemas.confirm_password request)).
  set (u1 := models.set_password_reset_token u (Some pr)).
  set (wa := rewrite_row u1 (fun row => models.set_password row digest)
               (exchanged u e t w)).
  assert (Hua : get_user_by_email e (db wa) =
                Some (models.set_password u1 digest)).
  { unfold wa, rewrite_row, with_db. cbn [db].
    now apply (found_after_update e u1 (models.id u1)
                 (fun row => models.set_password row digest)). }
  assert (Hub : get_user_by_email e
                  (db (rewrite_row u1
                         (fun row =>
                            models.set_password_reset_token row None) wa)) =
                Some (models.set_password_reset_token
                        (models.set_password u digest) None)).
  { unfold rewrite_row at 1. unfold with_db. cbn [db].
    now rewrite (found_after_update e (models.set_password u1 digest)
                   (models.id u1)
                   (fun row => models.set_password_reset_token row None)
                   (db wa) (fun _ => eq_refl) eq_refl Hua). }
  split; [exact Hub |].
  intros Hcontract Hconf now.
  match goal with
  | |- context [login ?b now _] => rewrite (login_known b now _ _ Hub)
  end.
  cbn [schemas.form_password].
  cbn [models.password models.set_password_reset_token models.set_password
       models.email_confirm].
  unfold digest, verify_password, get_hash_password.
  rewrite verify_hash, Hconf. cbn [negb]. eexists; eexists; reflexivity.
Qed.

Lemma superseded_in_exchanged (e : string) (u : models.User) (t1 t2 : Z)
  (w : world) (request : schemas.ResetPassword) (now : Z) (salt : string) :
  get_user_by_email e (db w) = Some u ->
  t1 <> t2 ->
  schemas.reset_password_token request = issue reset_password e None t1 ->
  let w2 := exchanged (models.set_password_reset_token u
                         (Some (issue reset_password e None t1))) e t2
              (exchanged u e t1 w) in
  (exists detail,
     set_new_password request now salt w2 =
     (Raise (unauthorized detail), w2)) /\
  get_user_by_email e (db w2) =
    Some (models.set_password_reset_token u
            (Some (issue reset_password e None t2))) /\
  (forall request' t' salt',
     schemas.reset_password_token request' = issue reset_password e None t2 ->
     schemas.new_password request' = schemas.confirm_password request' ->
     t' <= t2 + 300 ->
     fst (set_new_password request' t' salt' w2) =
     Return "password update successfully").
Proof.
  intros Hu Hne Htok w2.
  pose proof (exchanged_row u e t1 w Hu) as Hu1.
  pose proof (exchanged_row _ e t2 _ Hu1) as Hu2. fold w2 in Hu2.
  cbn [models.set_password_reset_token models.id models.username
       models.email models.email_confirm models.password models.avatar
       models.refresh_token] in Hu2.
  change (get_user_by_email e (db w2) =
          Some (models.set_password_reset_token u
                  (Some (issue reset_password e None t2)))) in Hu2.
  split; [| split].
  - destruct (reset_token_email (schemas.reset_password_token request) now)
      as [e' | x] eqn:Hd.
    + assert (e' = e) as ->.
      { rewrite Htok in Hd.
        apply (decode_same_subject reset_password _ now t1 e' e Hd).
        apply reset_token_live. lia. }
      rewrite (set_new_password_known request now salt w2 e _ Hd Hu2).
      rewrite differs_true; [eexists; reflexivity |].
      cbn [models.password_reset_token models.set_password_reset_token].
      rewrite Htok, !issue_payload. intros Heq. apply Hne.
      injection Heq as Heq _. now symmetry.
    + apply (decode_raises reset_password) in Hd as Hx; [| discriminate].
      subst x. unfold set_new_password, bind, lift. rewrite Hd.
      eexists; reflexivity.
  - exact Hu2.
  - intros request' t' salt' Htok' Hpw' Ht'.
    pose proof (reset_token_live e t2 t' Ht') as Hlive.
    rewrite <- Htok' in Hlive.
    rewrite (set_new_password_known request' t' salt' w2 e _ Hlive Hu2).
    rewrite (proj2 (differs_false _ _)), Hpw', String.eqb_refl;
      [reflexivity |].
    cbn [models.password_reset_token models.set_password_reset_token].
    now rewrite Htok'.
Qed.

(** X9.  One reset token at a time.  After two exchanges of reset links
    for one identity, in different seconds, the token the first returned is
    refused by set-new-password with 401 whenever it is presented and
    whatever the passwords, and the refusal changes nothing: unlike a
    replayed refresh token it does not clear the stored token, which is the
    one the second exchange returned and which still sets a new
    password. *)
Theorem reset_token_superseded (tok1 tok2 : token) (t1 t2 : Z) (w : world)
  (e : string) (u : models.User) (request : schemas.ResetPassword)
  (now : Z) (salt : string) :
  get_email_from_token tok1 t1 = Return e ->
  get_email_from_token tok2 t2 = Return e ->
  get_user_by_email e (db w) = Some u ->
  t1 <> t2 ->
  let w1 := snd (password_reset_email tok1 t1 w) in
  let w2 := snd (password_reset_email tok2 t2 w1) in
  Return (schemas.reset_password_token request) =
    fst (password_reset_email tok1 t1 w) ->
  (exists detail,
     set_new_password request now salt w2 =
     (Raise (unauthorized detail), w2)) /\
  (exists pr2,
     fst (password_reset_email tok2 t2 w1) = Return pr2 /\
     get_user_by_email e (db w2) =
       Some (models.set_password_reset_token u (Some pr2)) /\
     forall request' t' salt',
       schemas.reset_password_token request' = pr2 ->
       schemas.new_password request' = schemas.confirm_password request' ->
       t' <= t2 + 300 ->
       fst (set_new_password request' t' salt' w2) =
       Return "password update successfully").
Proof.
  intros Hd1 Hd2 Hu Hne w1 w2 Htok. subst w2 w1. revert Htok.
  rewrite (password_reset_email_known tok1 t1 w e u Hd1 Hu). cbn [fst snd].
  fold (exchanged u e t1 w). intros [= Htok].
  pose proof (exchanged_row u e t1 w Hu) as Hu1.
  rewrite (password_reset_email_known tok2 t2 _ e _ Hd2 Hu1). cbn [fst snd].
  fold (exchanged (models.set_password_reset_token u
                     (Some (issue reset_password e None t1))) e t2
          (exchanged u e t1 w)).
  destruct (superseded_in_exchanged e u t1 t2 w request now salt Hu Hne Htok)
    as (Hrefused & Hstored & Hsecond).
  split; [exact Hrefused |].
  exists (issue reset_password e None t2).
  split; [reflexivity |]. split; [exact Hstored |].
  intros request' t' salt' Htok'. now apply Hsecond.
Qed.

End session_facts.
End session_facts.

(** ** [request_email] of [src/routes/auth.py] and [src/services/email.py] *)

Module routes_auth_request_email.
Import AuthToken.

(** [user.confirmed].  [confirmed] is not an attribute of [User], whose
    columns are [id], [username], [email], [email_confirm], [password],
    [avatar], [refresh_token] and [password_reset_token]: the access
    raises on a row as it does on [None]. *)
Definition confirmed (user : option models.User) : result bool :=
  match user with
  | None =>
      Raise (AttributeError "'NoneType' object has no attribute 'confirmed'")
  | Some _ =>
      Raise (AttributeError "'User' object has no attribute 'confirmed'")
  end.

(** [POST /request_email] *)
Definition request_email (body_email base_url : string) : M string :=
  (user <- query (repository_user.get_user_by_email body_email) ;;
   is_confirmed <- lift (confirmed user) ;;
   if is_confirmed : bool then ret "Your email is already confirmed"
   else
     match user with
     | Some u =>
         add_task (send_email (models.email u) (models.username u) base_url)
     | None => ret tt
     end ;;
     ret "Check your email for confirmation.")%monad.

End routes_auth_request_email.

Module services_email.
Import AuthToken.

(** The [template_body] of a message and the message itself. *)
Record template_body : Type := {
  host : string;
  username : string;
  token : jwt.token
}.

Record MessageSchema : Type := {
  subject : string;
  recipients : list string;
  body : template_body;
  subtype : string
}.

(** What [FastMail.send_message] does with a message and a template name is
    outside the code: it delivers, or raises [ConnectionErrors]. *)
Inductive delivery : Type :=
| Delivered
| ConnectionErrors (err : string).

Class FastMail : Type := {
  send_message : MessageSchema -> string -> delivery
}.

(** A run of a mail function: the message and template handed to the
    transport, and the line printed when the transport raised. *)
Record run : Type := {
  handed : MessageSchema * string;
  printed : option string
}.

Section services_email.
Context {settings : Settings} {fm : FastMail}.

Definition attempt (message : MessageSchema) (template_name : string) : run :=
  {| handed := (message, template_name);
     printed := match send_message message template_name with
                | Delivered => None
                | ConnectionErrors err => Some err
                end |}.

Definition send_email (email username host : string) (now : Z) : run :=
  let token_verification := create_email_token [("sub", JStr email)] now in
  let message :=
    {| subject := "Confirm your email";
       recipients := [email];
       body := {| host := host; username := username;
                  token := token_verification |};
       subtype := "html" |} in
  attempt message "email_template.html".

Definition pass_reset_email (email username host : string) (now : Z) : run :=
  let token_verification := create_email_token [("sub", JStr email)] now in
  let message :=
    {| subject := "Reset password";
       recipients := [email];
       body := {| host := host; username := username;
                  token := token_verification |};
       subtype := "html" |} in
  attempt message "reset_password_template.html".

End services_email.
End services_email.

(** A queued task, run at [now]. *)
Definition run_task {settings : Settings} {fm : services_email.FastMail}
  (t : task) (now : Z) : services_email.run :=
  match t with
  | send_email email username host =>
      services_email.send_email email username host now
  | pass_reset_email email username host =>
      services_email.pass_reset_email email username host now
  end.

Module mail_facts.
Import AuthPassword AuthToken scoped jwt_facts table_facts routes_auth.
Import repository_user flow_facts session_facts.
Import routes_auth_request_email.

Section mail_facts.
Context {settings : Settings} {pwd_context : CryptContext}
  {gravatar : Gravatar} {fm : services_email.FastMail}.

(** X10.  [POST /request_email] never answers: whether the email has an
    identity or not, confirmed or not, the route ends in [AttributeError]
    at [user.confirmed], queues no mail and changes nothing. *)
Theorem request_email_always_raises (body_email base_url : string)
  (w : world) :
  exists msg,
    request_email body_email base_url w = (Raise (AttributeError msg), w).
Proof.
  unfold request_email, bind, lift, query.
  destruct (get_user_by_email body_email (db w)) as [u |];
    simpl; eexists; reflexivity.
Qed.

(** The token a queued mail carries when its task runs at [t]. *)
Definition link (queued : task) (t : Z) : token :=
  services_email.token
    (services_email.body (fst (services_email.handed (run_task queued t)))).

Lemma link_issue (queued : task) (t : Z) (e un h : string) :
  queued = send_email e un h \/ queued = pass_reset_email e un h ->
  link queued t = issue email_verification e None t /\
  services_email.recipients
    (fst (services_email.handed (run_task queued t))) = [e].
Proof.
  intros [-> | ->]; split; reflexivity.
Qed.

Lemma link_live (queued : task) (t t' : Z) (e un h : string) :
  queued = send_email e un h \/ queued = pass_reset_email e un h ->
  t' <= t + 3600 ->
  get_email_from_token (link queued t) t' = Return e.
Proof.
  intros Hq Ht. rewrite (proj1 (link_issue queued t e un h Hq)).
  apply (decode_issue_within email_verification).
  unfold ttl, timedelta_hours. lia.
Qed.

(** X11.  From sign-up to login.  A sign-up with a fresh email queues one
    confirmation mail for that email.  Until the link is followed a login
    with the sign-up password is refused with 401.  The link of the mail,
    whenever the task runs, followed within the hour after that, confirms
    the email; with a hasher that keeps its contract a login with the
    sign-up password then succeeds at any time. *)
Theorem sign_up_to_login (w : world) (body : schemas.UserModel)
  (base_url salt : string) (t t' : Z) :
  PasswordHasher pwd_context ->
  get_user_by_email (schemas.email body) (db w) = None ->
  t' <= t + 3600 ->
  let w1 := snd (sign_up body base_url salt w) in
  let form :=
    {| schemas.form_username := schemas.email body;
       schemas.form_password := schemas.password body |} in
  exists queued,
    background_tasks w1 = (background_tasks w ++ [queued])%list /\
    services_email.recipients
      (fst (services_email.handed (run_task queued t))) =
      [schemas.email body] /\
    (forall now, exists detail,
       login form now w1 = (Raise (unauthorized detail), w1)) /\
    exists w2,
      confirmed_email (link queued t) t' w1 = (Return "Email confirmed", w2)
      /\ forall now, exists tk w3, login form now w2 = (Return tk, w3).
Proof.
  intros Hcontract Hfresh Ht w1 form. subst w1.
  rewrite (sign_up_fresh w body base_url salt Hfresh). cbn [snd].
  set (u := new_identity w body salt).
  set (w1 := with_task _ _).
  exists (send_email (schemas.email body) (schemas.username body) base_url).
  assert (Hu : get_user_by_email (schemas.email body) (db w1) = Some u).
  { unfold w1; simpl. now apply found_after_append. }
  split; [reflexivity |]. split; [reflexivity |]. split.
  - intros now. subst form.
    match goal with
    | |- context [login ?b now _] => rewrite (login_known b now w1 u Hu)
    end.
    destruct (negb _); [eexists; reflexivity |].
    cbn [models.email_confirm u new_identity negb]. eexists; reflexivity.
  - assert (Hlive : get_email_from_token
                      (link (send_email (schemas.email body)
                               (schemas.username body) base_url) t) t' =
                    Return (schemas.email body)).
    { eapply link_live; [left; reflexivity | exact Ht]. }
    rewrite (confirmed_email_known _ t' w1 _ u Hlive Hu).
    cbn [models.email_confirm u new_identity].
    eexists. split; [reflexivity |].
    assert (Hu2 : get_user_by_email (schemas.email body)
                    (db (rewrite_row u
                           (fun row => models.set_email_confirm row true)
                           w1)) =
                  Some (models.set_email_confirm u true)).
    { unfold rewrite_row, with_db. cbn [db].
      now apply (found_after_update _ u (models.id u)
                   (fun row => models.set_email_confirm row true)). }
    intros now. subst form.
    match goal with
    | |- context [login ?b now ?w] => rewrite (login_known b now w _ Hu2)
    end.
    cbn [schemas.form_password models.password models.set_email_confirm
         models.email_confirm u new_identity].
    unfold verify_password, get_hash_password. rewrite verify_hash.
    cbn [negb]. eexists; eexists; reflexivity.
Qed.

(** X12.  The two mails carry one kind of token.  The link of a
    confirmation mail and the link of a reset mail for an identity are
    both read as its email for an hour by the one reader the two landing
    routes share: either link, followed to the reset exchange, returns a
    reset token that is stored, and either, followed to the confirmation
    route, confirms the email.  Two mails whose tasks run in the same
    second carry the same token. *)
Theorem mail_links_interchangeable (w : world) (u : models.User)
  (e un h un' h' : string) (t t' : Z) :
  get_user_by_email e (db w) = Some u ->
  t' <= t + 3600 ->
  link (send_email e un h) t = link (pass_reset_email e un' h') t /\
  forall queued,
    queued = send_email e un h \/ queued = pass_reset_email e un h ->
    password_reset_email (link queued t) t' w =
      (Return (issue reset_password e None t'),
       rewrite_row u
         (fun row =>
            models.set_password_reset_token row
              (Some (issue reset_password e None t'))) w) /\
    (models.email_confirm u = false ->
     confirmed_email (link queued t) t' w =
       (Return "Email confirmed",
        rewrite_row u (fun row => models.set_email_confirm row true) w)).
Proof.
  intros Hu Ht. split; [reflexivity |].
  intros queued Hq.
  pose proof (link_live queued t t' e un h Hq Ht) as Hlive.
  split.
  - exact (password_reset_email_known _ t' w e u Hlive Hu).
  - intros Hc. now rewrite (confirmed_email_known _ t' w e u Hlive Hu), Hc.
Qed.

End mail_facts.
End mail_facts.

(** ** What every request keeps *)

Module history.
Import AuthPassword AuthToken scoped jwt_facts table_facts routes_auth.
Import repository_user flow_facts session_facts.
Import routes_auth_request_email.

(** A request to the authentication routes, or to the guard that every
    protected route depends on. *)
Inductive request : Type :=
| SignUp (body : schemas.UserModel) (base_url salt : string)
| Login (body : schemas.OAuth2PasswordRequestForm)
| Refresh (credentials : token)
| ConfirmedEmail (token : token)
| RequestEmail (body_email base_url : string)
| PasswordReset (email base_url : string)
| PasswordResetEmail (token : token)
| SetNewPassword (request : schemas.ResetPassword) (salt : string)
| Guard (token : token).

Section history.
Context {settings : Settings} {pwd_context : CryptContext}
  {gravatar : Gravatar}.

(** The world after a request served at [now]. *)
Definition serve (q : request) (now : Z) (w : world) : world :=
  match q with
  | SignUp body base_url salt => snd (sign_up body base_url salt w)
  | Login body => snd (login body now w)
  | Refresh credentials => snd (refresh_token credentials now w)
  | ConfirmedEmail token => snd (confirmed_email token now w)
  | RequestEmail body_email base_url =>
      snd (request_email body_email base_url w)
  | PasswordReset email base_url => snd (password_reset email base_url w)
  | PasswordResetEmail token => snd (password_reset_email token now w)
  | SetNewPassword request salt => snd (set_new_password request now salt w)
  | Guard token => snd (get_current_user token now w)
  end.

(** The worlds a run of the service goes through, from the empty one. *)
Inductive reachable : world -> Prop :=
| reachable_empty :
    reachable {| db := []; r := []; background_tasks := [] |}
| reachable_serve (q : request) (now : Z) (w : world) :
    reachable w -> reachable (serve q now w).

(** What a request may do to a row: everything but its key, its email, its
    name and its avatar, and it may not withdraw a confirmation. *)
Definition keeps (f : models.User -> models.User) : Prop :=
  forall x,
    models.id (f x) = models.id x /\
    models.email (f x) = models.email x /\
    models.username (f x) = models.username x /\
    models.avatar (f x) = models.avatar x /\
    (models.email_confirm x = true -> models.email_confirm (f x) = true).

(** What a request may do to the table: rewrite rows, or add one row with
    a fresh email and the next key. *)
Definition table_step (d d' : Session) : Prop :=
  (exists f, keeps f /\ d' = map f d) \/
  (exists u, d' = (d ++ [u])%list /\
             get_user_by_email (models.email u) d = None /\
             models.id u = next_id d).

(** What a request may do to the cache: nothing, or record the key of a
    stored identity under its email. *)
Definition cache_step (w w' : world) : Prop :=
  r w' = r w \/
  (exists e u now,
     get_user_by_email e (db w) = Some u /\
     r w' = redis.expire e 60 now (redis.set e (models.id u) (r w))).

Definition coherent (w : world) : Prop :=
  forall e n now,
    redis.get e now (r w) = Some n ->
    exists u, get_user_by_email e (db w) = Some u /\ models.id u = n.

End history.
End history.

Module history_facts.
Import AuthPassword AuthToken scoped jwt_facts table_facts routes_auth.
Import repository_user flow_facts session_facts.
Import routes_auth_request_email history.

Lemma keeps_nothing_changed : keeps (fun x => x).
Proof. intros x. repeat split; auto. Qed.

Lemma keeps_row (k : Z) (change : models.User -> models.User) :
  keeps change ->
  keeps (fun row => if Z.eqb (models.id row) k then change row else row).
Proof.
  intros Hc x. destruct (Z.eqb (models.id x) k); [apply Hc |].
  repeat split; auto.
Qed.

Lemma keeps_compose (f g : models.User -> models.User) :
  keeps f -> keeps g -> keeps (fun x => g (f x)).
Proof.
  intros Hf Hg x.
  destruct (Hf x) as (F1 & F2 & F3 & F4 & F5).
  destruct (Hg (f x)) as (G1 & G2 & G3 & G4 & G5).
  repeat split; try congruence. auto.
Qed.

Lemma keeps_set_refresh_token (t : option token) :
  keeps (fun row => models.set_refresh_token row t).
Proof. intros x. repeat split; auto. Qed.

Lemma keeps_set_password_reset_token (t : option token) :
  keeps (fun row => models.set_password_reset_token row t).
Proof. intros x. repeat split; auto. Qed.

Lemma keeps_set_password (p : string) :
  keeps (fun row => models.set_password row p).
Proof. intros x. repeat split; auto. Qed.

Lemma keeps_confirm : keeps (fun row => models.set_email_confirm row true).
Proof. intros x. repeat split; auto. Qed.

Lemma table_step_same (d : Session) : table_step d d.
Proof.
  left. exists (fun x => x). split; [apply keeps_nothing_changed |].
  now rewrite map_id.
Qed.

Lemma table_step_row (u : models.User) (change : models.User -> models.User)
  (w : world) :
  keeps change -> table_step (db w) (db (rewrite_row u change w)).
Proof.
  intros Hc. left. eexists. split; [apply (keeps_row (models.id u)), Hc |].
  reflexivity.
Qed.

Section history_facts.
Context {settings : Settings} {pwd_context : CryptContext}
  {gravatar : Gravatar}.

Lemma serve_table (q : request) (now : Z) (w : world) :
  table_step (db w) (db (serve q now w)).
Proof.
  destruct q as [body base_url salt | body | tok | tok | mail base_url
                | mail base_url | tok | request salt | tok]; cbn [serve].
  - destruct (get_user_by_email (schemas.email body) (db w)) as [u |] eqn:Hu.
    + rewrite (sign_up_taken w body base_url salt u Hu).
      apply table_step_same.
    + rewrite (sign_up_fresh w body base_url salt Hu). cbn [snd].
      right. exists (new_identity w body salt). repeat split; assumption.
  - destruct (get_user_by_email (schemas.form_username body) (db w))
      as [u |] eqn:Hu.
    + rewrite (login_known body now w u Hu).
      destruct (negb _); [apply table_step_same |].
      destruct (negb _); [apply table_step_same |].
      apply table_step_row, keeps_set_refresh_token.
    + rewrite (login_unknown body now w Hu). apply table_step_same.
  - destruct (refresh_token_email tok now) as [e | x] eqn:Hd.
    + destruct (get_user_by_email e (db w)) as [u |] eqn:Hu.
      * rewrite (refresh_known tok now w e u Hd Hu).
        destruct (differs _ _); apply table_step_row,
          keeps_set_refresh_token.
      * unfold refresh_token, bind, lift, query. rewrite Hd, Hu.
        apply table_step_same.
    + unfold refresh_token, bind, lift. rewrite Hd. apply table_step_same.
  - destruct (get_email_from_token tok now) as [e | x] eqn:Hd.
    + destruct (get_user_by_email e (db w)) as [u |] eqn:Hu.
      * rewrite (confirmed_email_known tok now w e u Hd Hu).
        destruct (models.email_confirm u); [apply table_step_same |].
        apply table_step_row, keeps_confirm.
      * unfold confirmed_email, bind, lift, query, raise. rewrite Hd, Hu.
        apply table_step_same.
    + unfold confirmed_email, bind, lift. rewrite Hd. apply table_step_same.
  - unfold request_email, bind, lift, query.
    destruct (get_user_by_email mail (db w)); apply table_step_same.
  - unfold password_reset, bind, query, raise, add_task, ret.
    destruct (get_user_by_email mail (db w)); apply table_step_same.
  - destruct (get_email_from_token tok now) as [e | x] eqn:Hd.
    + destruct (get_user_by_email e (db w)) as [u |] eqn:Hu.
      * rewrite (password_reset_email_known tok now w e u Hd Hu).
        apply table_step_row, keeps_set_password_reset_token.
      * unfold password_reset_email, bind, lift, query. rewrite Hd, Hu.
        apply table_step_same.
    + unfold password_reset_email, bind, lift. rewrite Hd.
      apply table_step_same.
  - destruct (reset_token_email (schemas.reset_password_token request) now)
      as [e | x] eqn:Hd.
    + destruct (get_user_by_email e (db w)) as [u |] eqn:Hu.
      * rewrite (set_new_password_known request now salt w e u Hd Hu).
        destruct (differs _ _); [apply table_step_same |].
        destruct (negb _); [apply table_step_same |].
        left. eexists. split; cycle 1.
        -- unfold rewrite_row, with_db. cbn [snd db]. rewrite map_map.
           reflexivity.
        -- apply (keeps_compose _ _
                    (keeps_row (models.id u) _ (keeps_set_password _))
                    (keeps_row (models.id u) _
                       (keeps_set_password_reset_token None))).
      * unfold set_new_password, bind, lift, query. rewrite Hd, Hu.
        apply table_step_same.
    + unfold set_new_password, bind, lift. rewrite Hd.
      apply table_step_same.
  - destruct (get_current_user_email tok now) as [e | x] eqn:Hd.
    + destruct (redis.get e now (r w)) as [n |] eqn:Hc.
      * rewrite (cache_facts.guard_hit tok now w e n Hd Hc).
        apply table_step_same.
      * destruct (get_user_by_email e (db w)) as [u |] eqn:Hu.
        -- rewrite (cache_facts.guard_miss tok now w e u Hd Hc Hu).
           apply table_step_same.
        -- unfold get_current_user, bind, lift, r_read, query.
           rewrite Hd, Hc, Hu. apply table_step_same.
    + unfold get_current_user, bind, lift. rewrite Hd.
      apply table_step_same.
Qed.

Lemma serve_cache (q : request) (now : Z) (w : world) :
  cache_step w (serve q now w).
Proof.
  destruct q as [body base_url salt | body | tok | tok | mail base_url
                | mail base_url | tok | request salt | tok]; cbn [serve].
  - left. destruct (get_user_by_email (schemas.email body) (db w))
      as [u |] eqn:Hu.
    + now rewrite (sign_up_taken w body base_url salt u Hu).
    + now rewrite (sign_up_fresh w body base_url salt Hu).
  - left. destruct (get_user_by_email (schemas.form_username body) (db w))
      as [u |] eqn:Hu.
    + rewrite (login_known body now w u Hu).
      destruct (negb _); [reflexivity |]. destruct (negb _); reflexivity.
    + now rewrite (login_unknown body now w Hu).
  - left. destruct (refresh_token_email tok now) as [e | x] eqn:Hd.
    + destruct (get_user_by_email e (db w)) as [u |] eqn:Hu.
      * rewrite (refresh_known tok now w e u Hd Hu).
        destruct (differs _ _); reflexivity.
      * unfold refresh_token, bind, lift, query. now rewrite Hd, Hu.
    + unfold refresh_token, bind, lift. now rewrite Hd.
  - left. destruct (get_email_from_token tok now) as [e | x] eqn:Hd.
    + destruct (get_user_by_email e (db w)) as [u |] eqn:Hu.
      * rewrite (confirmed_email_known tok now w e u Hd Hu).
        destruct (models.email_confirm u); reflexivity.
      * unfold confirmed_email, bind, lift, query, raise. now rewrite Hd, Hu.
    + unfold confirmed_email, bind, lift. now rewrite Hd.
  - left. unfold request_email, bind, lift, query.
    destruct (get_user_by_email mail (db w)); reflexivity.
  - left. unfold password_reset, bind, query, raise, add_task, ret.
    destruct (get_user_by_email mail (db w)); reflexivity.
  - left. destruct (get_email_from_token tok now) as [e | x] eqn:Hd.
    + destruct (get_user_by_email e (db w)) as [u |] eqn:Hu.
      * now rewrite (password_reset_email_known tok now w e u Hd Hu).
      * unfold password_reset_email, bind, lift, query. now rewrite Hd, Hu.
    + unfold password_reset_email, bind, lift. now rewrite Hd.
  - left.
    destruct (reset_token_email (schemas.reset_password_token request) now)
      as [e | x] eqn:Hd.
    + destruct (get_user_by_email e (db w)) as [u |] eqn:Hu.
      * rewrite (set_new_password_known request now salt w e u Hd Hu).
        destruct (differs _ _); [reflexivity |].
        destruct (negb _); reflexivity.
      * unfold set_new_password, bind, lift, query. now rewrite Hd, Hu.
    + unfold set_new_password, bind, lift. now rewrite Hd.
  - destruct (get_current_user_email tok now) as [e | x] eqn:Hd.
    + destruct (redis.get e now (r w)) as [n |] eqn:Hc.
      * left. now rewrite (cache_facts.guard_hit tok now w e n Hd Hc).
      * destruct (get_user_by_email e (db w)) as [u |] eqn:Hu.
        -- right. exists e, u, now. split; [exact Hu |].
           now rewrite (cache_facts.guard_miss tok now w e u Hd Hc Hu).
        -- left. unfold get_current_user, bind, lift, r_read, query.
           now rewrite Hd, Hc, Hu.
    + left. unfold get_current_user, bind, lift. now rewrite Hd.
Qed.

End history_facts.

(** Lookups along a step of the table. *)
Lemma found_after_map (e : string) (f : models.User -> models.User)
  (d : Session) (u : models.User) :
  (forall x, models.email (f x) = models.email x) ->
  get_user_by_email e d = Some u ->
  get_user_by_email e (map f d) = Some (f u).
Proof.
  unfold get_user_by_email. intros Hmail.
  induction d as [| row d IH]; simpl; [discriminate |].
  rewrite Hmail. destruct (String.eqb (models.email row) e).
  - now intros [= ->].
  - exact IH.
Qed.

Lemma found_before_append (e : string) (d : Session) (u x : models.User) :
  get_user_by_email e d = Some u ->
  get_user_by_email e (d ++ [x])%list = Some u.
Proof.
  unfold get_user_by_email.
  induction d as [| row d IH]; simpl; [discriminate |].
  destruct (String.eqb (models.email row) e); [auto | exact IH].
Qed.

Lemma id_below_next (d : Session) (x : models.User) :
  In x d -> models.id x < next_id d.
Proof.
  unfold next_id. induction d as [| row d IH]; [intros [] |].
  cbn [fold_right In]. intros [<- | Hin]; [lia |]. specialize (IH Hin). lia.
Qed.

Lemma table_step_found (d d' : Session) (e : string) (u : models.User) :
  table_step d d' ->
  get_user_by_email e d = Some u ->
  exists u',
    get_user_by_email e d' = Some u' /\
    models.id u' = models.id u /\
    models.username u' = models.username u /\
    models.avatar u' = models.avatar u /\
    (models.email_confirm u = true -> models.email_confirm u' = true).
Proof.
  intros [(f & Hf & ->) | (x & -> & _ & _)] Hu.
  - exists (f u). destruct (Hf u) as (F1 & F2 & F3 & F4 & F5).
    split; [| now repeat split].
    apply found_after_map; [intros y; apply Hf | exact Hu].
  - exists u. split; [now apply found_before_append | now repeat split].
Qed.

Lemma table_step_unique (d d' : Session) :
  table_step d d' ->
  unique_emails d /\ NoDup (map models.id d) ->
  unique_emails d' /\ NoDup (map models.id d').
Proof.
  unfold unique_emails.
  intros [(f & Hf & ->) | (x & -> & Hfresh & Hid)] [Hmail Hids].
  - rewrite !map_map.
    rewrite (map_ext (fun y => models.email (f y)) models.email)
      by (intros y; apply Hf).
    rewrite (map_ext (fun y => models.id (f y)) models.id)
      by (intros y; apply Hf).
    now split.
  - rewrite !map_app; simpl. split.
    + apply NoDup_app; [exact Hmail | repeat constructor; intros [] |].
      intros a Hin [<- | []].
      apply in_map_iff in Hin as (row & Hrow & Hin).
      assert (Hex : existsb
                      (fun y => String.eqb (models.email y) (models.email x))
                      d = true).
      { apply existsb_exists. exists row. split; [exact Hin |].
        now apply String.eqb_eq. }
      now rewrite (absent_existsb _ _ Hfresh) in Hex.
    + apply NoDup_app; [exact Hids | repeat constructor; intros [] |].
      intros a Hin [<- | []].
      apply in_map_iff in Hin as (row & Hrow & Hin).
      pose proof (id_below_next d row Hin). lia.
Qed.

Lemma get_elsewhere (key k : string) (v seconds now t : Z) (c : redis.Redis) :
  k <> key ->
  redis.get k t (redis.expire key seconds now (redis.set key v c)) =
  redis.get k t c.
Proof.
  intros Hne. apply String.eqb_neq in Hne.
  assert (Hne' : String.eqb key k = false)
    by (now rewrite String.eqb_sym).
  induction c as [| [k0 e0] c IH]; simpl.
  - rewrite String.eqb_refl. simpl. now rewrite Hne'.
  - destruct (String.eqb k0 key) eqn:Hk; simpl; rewrite Hk; simpl.
    + apply String.eqb_eq in Hk. subst k0. now rewrite Hne'.
    + now rewrite IH.
Qed.

End history_facts.

(** ** [src/routes/users.py] *)

Module routes_users.
Import AuthToken.

(** The key the guard returned, as the query uses it: the database reads
    the text of a key as the integer. *)
Definition key (current_user : AuthToken.current_user) : Z :=
  match current_user with
  | id_int n => n
  | id_str n => n
  end.

(** [GET /users/me/] *)
Definition read_users_me {settings : Settings} (token : token) (now : Z)
  : M (option models.User) :=
  (current_user <- get_current_user token now ;;
   query (repository_user.get_user_by_id (key current_user)))%monad.

End routes_users.

Module lifetime_facts.
Import AuthPassword AuthToken scoped jwt_facts table_facts routes_auth.
Import repository_user flow_facts session_facts.
Import routes_auth_request_email history history_facts routes_users.

Section lifetime_facts.
Context {settings : Settings} {pwd_context : CryptContext}
  {gravatar : Gravatar}.

(** X13.  No request to the authentication routes or to the guard removes
    an identity, changes its primary key, its name or its avatar, or
    withdraws the confirmation of its email: the identity found for an
    email before the request is found after it with these unchanged. *)
Theorem identity_is_stable (q : request) (now : Z) (w : world) (e : string)
  (u : models.User) :
  get_user_by_email e (db w) = Some u ->
  exists u',
    get_user_by_email e (db (serve q now w)) = Some u' /\
    models.id u' = models.id u /\
    models.username u' = models.username u /\
    models.avatar u' = models.avatar u /\
    (models.email_confirm u = true -> models.email_confirm u' = true).
Proof.
  intros Hu.
  exact (table_step_found _ _ e u (serve_table q now w) Hu).
Qed.

Lemma serve_coherent (q : request) (now : Z) (w : world) :
  coherent w -> coherent (serve q now w).
Proof.
  intros Hco e n t Hget.
  destruct (serve_cache q now w) as [Hr | (e0 & u0 & now0 & Hu0 & Hr)];
    rewrite Hr in Hget.
  - destruct (Hco e n t Hget) as (u & Hu & Hid).
    destruct (table_step_found _ _ e u (serve_table q now w) Hu)
      as (u' & Hu' & Hid' & _).
    exists u'. split; [exact Hu' | congruence].
  - destruct (string_dec e e0) as [-> | Hne].
    + rewrite cache_facts.get_set_expire in Hget.
      destruct (t <=? now0 + 60); [| discriminate]. injection Hget as <-.
      destruct (table_step_found _ _ e0 u0 (serve_table q now w) Hu0)
        as (u' & Hu' & Hid' & _).
      exists u'. split; [exact Hu' | exact Hid'].
    + rewrite (get_elsewhere e0 e _ _ _ _ _ Hne) in Hget.
      destruct (Hco e n t Hget) as (u & Hu & Hid).
      destruct (table_step_found _ _ e u (serve_table q now w) Hu)
        as (u' & Hu' & Hid' & _).
      exists u'. split; [exact Hu' | congruence].
Qed.

Lemma reachable_keeps (w : world) :
  reachable w ->
  (unique_emails (db w) /\ NoDup (map models.id (db w))) /\ coherent w.
Proof.
  induction 1 as [| q now w Hreach [Huniq Hco]].
  - split; [split; constructor |]. intros e n t Hget. discriminate.
  - split.
    + exact (table_step_unique _ _ (serve_table q now w) Huniq).
    + now apply serve_coherent.
Qed.

(** X14.  In every world the service can reach from the empty one, no two
    identities share an email or a primary key, and the cache is faithful
    to the table: a key it returns for an email, at whatever instant, is
    the primary key of the identity stored for that email. *)
Theorem reachable_invariants (w : world) :
  reachable w ->
  unique_emails (db w) /\
  NoDup (map models.id (db w)) /\
  (forall e n now,
     redis.get e now (r w) = Some n ->
     exists u, get_user_by_email e (db w) = Some u /\ models.id u = n).
Proof.
  intros Hreach.
  destruct (reachable_keeps w Hreach) as [[Hmail Hids] Hco].
  split; [exact Hmail |]. split; [exact Hids | exact Hco].
Qed.

Lemma found_by_id (d : Session) (u : models.User) :
  NoDup (map models.id d) -> In u d ->
  get_user_by_id (models.id u) d = Some u.
Proof.
  unfold get_user_by_id. induction d as [| row d IH]; simpl; [intros _ [] |].
  intros Hnd [-> | Hin].
  - now rewrite Z.eqb_refl.
  - inversion Hnd as [| ? ? Hnotin Hnd']; subst.
    destruct (Z.eqb_spec (models.id row) (models.id u)) as [Heq | Hne].
    + exfalso. apply Hnotin. rewrite Heq. now apply in_map.
    + now apply IH.
Qed.

(** X15.  [GET /users/me/] in a reachable world: for a valid access token
    whose email has an identity, the route returns exactly that identity,
    whether the guard answered from the cache or from the table. *)
Theorem read_users_me_own_row (tok : token) (now : Z) (w : world)
  (e : string) (u : models.User) :
  reachable w ->
  get_current_user_email tok now = Return e ->
  get_user_by_email e (db w) = Some u ->
  fst (read_users_me tok now w) = Return (Some u).
Proof.
  intros Hreach Hd Hu.
  destruct (reachable_keeps w Hreach) as [[_ Hids] Hco].
  pose proof (found_by_id _ _ Hids (found_in _ _ _ Hu)) as Hbyid.
  unfold read_users_me, bind.
  destruct (redis.get e now (r w)) as [n |] eqn:Hc.
  - rewrite (cache_facts.guard_hit tok now w e n Hd Hc).
    destruct (Hco e n now Hc) as (u' & Hu' & Hid).
    rewrite Hu in Hu'. injection Hu' as <-. subst n.
    unfold query; simpl. now rewrite Hbyid.
  - rewrite (cache_facts.guard_miss tok now w e u Hd Hc Hu).
    unfold query; simpl. now rewrite Hbyid.
Qed.

End lifetime_facts.
End lifetime_facts.

(** * The contacts behind the guard

    [src/repository/contacts.py] over the [contacts] table of
    [src/database/models.py].  Text is ASCII: [lower] and [capitalize] act
    on the letters A-Z and a-z and leave every other byte alone.  On ASCII
    text they are Python's; beyond it Python also maps letters that these
    leave alone, so a statement that rests on more than the two being
    functions says which of its texts are ASCII ([isascii]).  Dates are
    the proleptic Gregorian dates of [datetime.date]. *)

Module text.
Import Ascii.

Definition is_upper (c : ascii) : bool :=
  let n := nat_of_ascii c in (Nat.leb 65 n && Nat.leb n 90)%bool.

Definition is_lower (c : ascii) : bool :=
  let n := nat_of_ascii c in (Nat.leb 97 n && Nat.leb n 122)%bool.

Definition to_lower (c : ascii) : ascii :=
  if is_upper c then ascii_of_nat (nat_of_ascii c + 32) else c.

Definition to_upper (c : ascii) : ascii :=
  if is_lower c then ascii_of_nat (nat_of_ascii c - 32) else c.

(** [s.lower()] *)
Fixpoint lower (s : string) : string :=
  match s with
  | EmptyString => EmptyString
  | String c s' => String (to_lower c) (lower s')
  end.

(** [s.capitalize()]: the first character in upper case, the rest in lower
    case. *)
Definition capitalize (s : string) : string :=
  match s with
  | EmptyString => EmptyString
  | String c s' => String (to_upper c) (lower s')
  end.

(** [s.isascii()] *)
Fixpoint isascii (s : string) : bool :=
  match s with
  | EmptyString => true
  | String c s' => (Nat.ltb (nat_of_ascii c) 128 && isascii s')%bool
  end.

(** Whether some character of [s] is an upper-case letter. *)
Fixpoint has_upper (s : string) : bool :=
  match s with
  | EmptyString => false
  | String c s' => (is_upper c || has_upper s')%bool
  end.

(** The truth value of an optional string argument: [None] and the empty
    string are false. *)
Definition given (s : option string) : bool :=
  match s with
  | None | Some EmptyString => false
  | Some _ => true
  end.

End text.

Module dates.

Record date : Type := { year : Z; month : Z; day : Z }.

Definition is_leap (y : Z) : bool :=
  ((y mod 4 =? 0) && (negb (y mod 100 =? 0) || (y mod 400 =? 0)))%bool.

Definition days_in_month (y m : Z) : Z :=
  if m =? 2 then (if is_leap y then 29 else 28)
  else if (m =? 4) || (m =? 6) || (m =? 9) || (m =? 11) then 30
  else 31.

(** The dates [datetime.date] can hold. *)
Definition valid (d : date) : Prop :=
  1 <= year d <= 9999 /\ 1 <= month d <= 12 /\
  1 <= day d <= days_in_month (year d) (month d).

(** [d1 <= d2] *)
Definition le (d1 d2 : date) : bool :=
  (year d1 <? year d2) ||
  ((year d1 =? year d2) &&
   ((month d1 <? month d2) ||
    ((month d1 =? month d2) && (day d1 <=? day d2)))).

(** A date operation returns a date or raises [ValueError]. *)
Inductive outcome (A : Type) : Type :=
| Value (a : A)
| ValueError (msg : string).
Arguments Value {A} a.
Arguments ValueError {A} msg.

(** [d.replace(year=y)]: the same month and day in year [y], when that year
    has the day. *)
Definition replace_year (d : date) (y : Z) : outcome date :=
  if day d <=? days_in_month y (month d)
  then Value {| year := y; month := month d; day := day d |}
  else ValueError "day is out of range for month".

Definition next_day (d : date) : date :=
  if day d <? days_in_month (year d) (month d)
  then {| year := year d; month := month d; day := day d + 1 |}
  else if month d <? 12
  then {| year := year d; month := month d + 1; day := 1 |}
  else {| year := year d + 1; month := 1; day := 1 |}.

(** [d + timedelta(days=n)], within the years a date can hold. *)
Definition add_days (d : date) (n : nat) : date := Nat.iter n next_day d.

End dates.

Module models_contacts.
Import dates.

(** A row of the [contacts] table. *)
Record Contact : Type := {
  id : Z;
  first_name : string;
  last_name : string;
  email : string;
  phone_number : string;
  birthday : option date;
  address : option string;
  created_at : Z;
  user_id : option Z
}.

End models_contacts.

Module schemas_contacts.
Import dates.

Record ContactModel : Type := {
  first_name : string;
  last_name : string;
  email : string;
  phone_number : string;
  birthday : date;
  address : string;
  user_id : Z
}.

End schemas_contacts.

Module repository_contacts.
Import dates text models_contacts.

(** The [contacts] table, rows in insertion order. *)
Definition Contacts : Type := list Contact.

(** [filter_by(user_id=user)] *)
Definition owned (user : Z) (c : Contact) : bool :=
  match user_id c with
  | Some n => n =? user
  | None => false
  end.

(** [.offset(n)] and [.limit(n)].  [skip] and [limit] reach the query as
    the integers of the request.  A count from 0 up to [bigint_max] is read
    alike by every database.  Outside that range the databases differ: the
    rows are given here as SQLite, the database of the tests, returns them
    for a negative count -- a negative [OFFSET] skips nothing, a negative
    [LIMIT] is no limit --, where PostgreSQL refuses the query; statements
    about the size or the place of a page name the range. *)
Definition bigint_max : Z := 9223372036854775807.

Definition offset {A : Type} (n : Z) (rows : list A) : list A :=
  skipn (Z.to_nat n) rows.

Definition limit {A : Type} (n : Z) (rows : list A) : list A :=
  if n <? 0 then rows else firstn (Z.to_nat n) rows.

Definition get_contacts (skip limit_ : Z) (user : Z) (db : Contacts)
  : list Contact :=
  limit limit_ (offset skip (filter (owned user) db)).

Definition get_contact (contact_id user : Z) (db : Contacts)
  : option Contact :=
  find (fun c => (id c =? contact_id) && owned user c) db.

Definition search_contact (db : Contacts) (user : Z)
  (first_name last_name email : option string) : option (list Contact) :=
  let contacts := None in
  let contacts :=
    if given first_name && given last_name then
      Some (filter
              (fun c =>
                 String.eqb (models_contacts.first_name c)
                   (capitalize (match first_name with Some s => s | None => "" end))
                 && String.eqb (models_contacts.last_name c)
                      (capitalize (match last_name with Some s => s | None => "" end))
                 && owned user c) db)
    else contacts in
  let contacts :=
    if given first_name then
      Some (filter
              (fun c =>
                 String.eqb (models_contacts.first_name c)
                   (capitalize (match first_name with Some s => s | None => "" end))
                 && owned user c) db)
    else contacts in
  let contacts :=
    if given email then
      Some (filter
              (fun c =>
                 String.eqb (models_contacts.email c)
                   (lower (match email with Some s => s | None => "" end))
                 && owned user c) db)
    else contacts in
  contacts.

(** The primary key the table gives the next row. *)
Definition next_id (db : Contacts) : Z :=
  1 + fold_right (fun c acc => Z.max (id c) acc) 0 db.

(** [add_contact]; [now] is the [func.now()] of [created_at]. *)
Definition add_contact (body : schemas_contacts.ContactModel) (user : Z)
  (now : Z) (db : Contacts) : Contact * Contacts :=
  let contact :=
    {| id := next_id db;
       first_name := capitalize (schemas_contacts.first_name body);
       last_name := capitalize (schemas_contacts.last_name body);
       email := schemas_contacts.email body;
       phone_number := schemas_contacts.phone_number body;
       birthday := Some (schemas_contacts.birthday body);
       address := Some (schemas_contacts.address body);
       created_at := now;
       user_id := Some user |} in
  (contact, (db ++ [contact])%list).

(** The assignments of [change_contact] on a row. *)
Definition changed (body : schemas_contacts.ContactModel) (c : Contact)
  : Contact :=
  {| id := id c;
     first_name := schemas_contacts.first_name body;
     last_name := schemas_contacts.last_name body;
     email := schemas_contacts.email body;
     phone_number := phone_number c;
     birthday := Some (schemas_contacts.birthday body);
     address := Some (schemas_contacts.address body);
     created_at := created_at c;
     user_id := user_id c |}.

(** [change_contact]: the row with the primary key of the contact found is
    rewritten. *)
Definition change_contact (contact_id : Z)
  (body : schemas_contacts.ContactModel) (user : Z) (db : Contacts)
  : option Contact * Contacts :=
  match get_contact contact_id user db with
  | Some contact =>
      (Some (changed body contact),
       map (fun c => if id c =? id contact then changed body c else c) db)
  | None => (None, db)
  end.

(** [remove_contact]: the row with the primary key of the contact found is
    deleted. *)
Definition remove_contact (contact_id user : Z) (db : Contacts)
  : option Contact * Contacts :=
  match get_contact contact_id user db with
  | Some contact =>
      (Some contact, filter (fun c => negb (id c =? id contact)) db)
  | None => (None, db)
  end.

(** The test of the loop of [get_birthdays] on one contact. *)
Definition in_coming_week (today : date) (c : Contact) : outcome bool :=
  match birthday c with
  | Some b =>
      match replace_year b (year today) with
      | Value this_year =>
          Value (le today this_year && le this_year (add_days today 7))
      | ValueError msg => ValueError msg
      end
  | None => Value false
  end.

Fixpoint coming_week (today : date) (all_contacts : list Contact)
  : outcome (list Contact) :=
  match all_contacts with
  | [] => Value []
  | contact :: rest =>
      match in_coming_week today contact with
      | Value keep =>
          match coming_week today rest with
          | Value contacts =>
              Value (if keep then contact :: contacts else contacts)
          | ValueError msg => ValueError msg
          end
      | ValueError msg => ValueError msg
      end
  end.

(** [get_birthdays]; [today] is [date.today()]. *)
Definition get_birthdays (user : Z) (today : date) (db : Contacts)
  : outcome (list Contact) :=
  let all_contacts := filter (owned user) db in
  coming_week today all_contacts.

End repository_contacts.

(** ** Text and dates *)

Module text_facts.
Import Ascii text.

Lemma to_lower_not_upper (c : ascii) : is_upper (to_lower c) = false.
Proof.
  destruct c as [[] [] [] [] [] [] [] []]; reflexivity.
Qed.

Lemma to_lower_idem (c : ascii) : to_lower (to_lower c) = to_lower c.
Proof.
  unfold to_lower at 1. now rewrite to_lower_not_upper.
Qed.

Lemma to_upper_idem (c : ascii) : to_upper (to_upper c) = to_upper c.
Proof.
  destruct c as [[] [] [] [] [] [] [] []]; reflexivity.
Qed.

Lemma lower_idem (s : string) : lower (lower s) = lower s.
Proof.
  induction s as [| c s IH]; simpl; [reflexivity |].
  now rewrite to_lower_idem, IH.
Qed.

Lemma lower_has_no_upper (s : string) : has_upper (lower s) = false.
Proof.
  induction s as [| c s IH]; simpl; [reflexivity |].
  now rewrite to_lower_not_upper, IH.
Qed.

Lemma capitalize_idem (s : string) : capitalize (capitalize s) = capitalize s.
Proof.
  destruct s as [| c s]; simpl; [reflexivity |].
  now rewrite to_upper_idem, lower_idem.
Qed.

End text_facts.

(** ** The contacts repository *)

Module contacts_facts.
Import dates text text_facts models_contacts repository_contacts.

Lemma in_firstn {A : Type} (n : nat) (l : list A) (x : A) :
  In x (firstn n l) -> In x l.
Proof.
  intros Hin. rewrite <- (firstn_skipn n l). apply in_or_app. now left.
Qed.

Lemma in_skipn {A : Type} (n : nat) (l : list A) (x : A) :
  In x (skipn n l) -> In x l.
Proof.
  intros Hin. rewrite <- (firstn_skipn n l). apply in_or_app. now right.
Qed.

Lemma find_append {A : Type} (f : A -> bool) (l l' : list A) :
  find f (l ++ l') = match find f l with
                     | Some x => Some x
                     | None => find f l'
                     end.
Proof.
  induction l as [| x l IH]; simpl; [reflexivity |].
  now destruct (f x).
Qed.

Lemma owned_user_id (user : Z) (c : Contact) :
  owned user c = true <-> user_id c = Some user.
Proof.
  unfold owned. destruct (user_id c) as [n |]; [| split; discriminate].
  destruct (Z.eqb_spec n user); split; congruence.
Qed.

Lemma get_contact_found (contact_id user : Z) (db : Contacts) (c : Contact) :
  get_contact contact_id user db = Some c ->
  In c db /\ id c = contact_id /\ user_id c = Some user.
Proof.
  unfold get_contact. intros Hf. apply find_some in Hf as [Hin Hc].
  apply andb_true_iff in Hc as [Hid Hown].
  split; [exact Hin |]. split; [now apply Z.eqb_eq | now apply owned_user_id].
Qed.

Lemma coming_week_sublist (today : date) (l cs : list Contact) (c : Contact) :
  coming_week today l = Value cs -> In c cs ->
  In c l /\ in_coming_week today c = Value true.
Proof.
  revert cs. induction l as [| x l IH]; simpl; intros cs.
  - intros [= <-] [].
  - destruct (in_coming_week today x) as [keep |] eqn:Hx; [| discriminate].
    destruct (coming_week today l) as [rest |]; [| discriminate].
    intros [= <-] Hin. destruct keep.
    + destruct Hin as [<- | Hin]; [now split; [left |] |].
      destruct (IH rest eq_refl Hin). split; [now right | assumption].
    + destruct (IH rest eq_refl Hin). split; [now right | assumption].
Qed.

Lemma in_limit {A : Type} (n : Z) (l : list A) (x : A) :
  In x (limit n l) -> In x l.
Proof.
  unfold limit. destruct (n <? 0); [auto | apply in_firstn].
Qed.

(** X16.  What the reading functions return belongs to the caller: every
    contact in a page of [get_contacts], the contact of [get_contact],
    every contact [search_contact] finds and every contact
    [get_birthdays] lists carries the caller's key as [user_id]. *)
Theorem reads_return_own_contacts (user : Z) (db : Contacts) (c : Contact) :
  (forall skip limit,
     In c (get_contacts skip limit user db) -> user_id c = Some user) /\
  (forall contact_id,
     get_contact contact_id user db = Some c ->
     user_id c = Some user /\ id c = contact_id) /\
  (forall first_name last_name email found,
     search_contact db user first_name last_name email = Some found ->
     In c found -> user_id c = Some user) /\
  (forall today listed,
     get_birthdays user today db = Value listed ->
     In c listed -> user_id c = Some user).
Proof.
  split; [| split; [| split]].
  - intros skip limit Hin. unfold get_contacts in Hin.
    apply in_limit, in_skipn in Hin.
    apply filter_In in Hin as [_ Hown]. now apply owned_user_id.
  - intros contact_id Hf.
    destruct (get_contact_found _ _ _ _ Hf) as (_ & Hid & Hown). now split.
  - intros fn ln em found Hs Hin. unfold search_contact in Hs.
    destruct (given em).
    + injection Hs as <-. apply filter_In in Hin as [_ Hc].
      apply andb_true_iff in Hc as [_ Hown]. now apply owned_user_id.
    + destruct (given fn); simpl in Hs.
      * injection Hs as <-. apply filter_In in Hin as [_ Hc].
        apply andb_true_iff in Hc as [_ Hown]. now apply owned_user_id.
      * discriminate.
  - intros today listed Hb Hin. unfold get_birthdays in Hb.
    destruct (coming_week_sublist _ _ _ _ Hb Hin) as [Hf _].
    apply filter_In in Hf as [_ Hown]. now apply owned_user_id.
Qed.

Lemma same_id_same_row (db : Contacts) (a b : Contact) :
  NoDup (map id db) -> In a db -> In b db -> id a = id b -> a = b.
Proof.
  induction db as [| x db IH]; simpl; [intros _ [] |].
  intros Hnd Ha Hb Hid. inversion Hnd as [| ? ? Hnotin Hnd']; subst.
  destruct Ha as [-> | Ha], Hb as [-> | Hb].
  - reflexivity.
  - exfalso. apply Hnotin. rewrite Hid. now apply in_map.
  - exfalso. apply Hnotin. rewrite <- Hid. now apply in_map.
  - now apply IH.
Qed.

(** X17.  Writes stay with the caller.  On a table with distinct primary
    keys, a contact that does not carry the caller's key is still in the
    table, unchanged, after the caller's [change_contact] and after the
    caller's [remove_contact], whatever contact id the caller names. *)
Theorem writes_spare_others (contact_id : Z)
  (body : schemas_contacts.ContactModel) (user : Z) (db : Contacts)
  (c : Contact) :
  NoDup (map id db) ->
  In c db ->
  user_id c <> Some user ->
  In c (snd (change_contact contact_id body user db)) /\
  In c (snd (remove_contact contact_id user db)).
Proof.
  intros Hnd Hin Hother.
  unfold change_contact, remove_contact.
  destruct (get_contact contact_id user db) as [x |] eqn:Hx;
    [| now split].
  destruct (get_contact_found _ _ _ _ Hx) as (Hxin & _ & Hxown).
  assert (Hid : (id c =? id x) = false).
  { apply Z.eqb_neq. intros Heq.
    assert (c = x) by now apply (same_id_same_row db).
    congruence. }
  cbn [snd]. split.
  - apply in_map_iff. exists c. now rewrite Hid.
  - apply filter_In. split; [exact Hin | now rewrite Hid].
Qed.

Lemma contact_id_below_next (db : Contacts) (x : Contact) :
  In x db -> id x < next_id db.
Proof.
  unfold next_id. induction db as [| row db IH]; [intros [] |].
  cbn [fold_right In]. intros [<- | Hin]; [lia |]. specialize (IH Hin). lia.
Qed.

Lemma find_fresh_id (user : Z) (db : Contacts) :
  find (fun c => (id c =? next_id db) && owned user c) db = None.
Proof.
  destruct (find _ db) as [x |] eqn:Hf; [| reflexivity].
  apply find_some in Hf as [Hin Hc].
  apply andb_true_iff in Hc as [Hid _]. apply Z.eqb_eq in Hid.
  pose proof (contact_id_below_next db x Hin). lia.
Qed.

(** X18.  A contact is created for the caller, whatever [user_id] the body
    names: the row carries the caller's key, the capitalised names and a
    primary key no row had; the table grows by this one row at its end;
    the caller finds the contact under its key and nobody else does; and
    distinct primary keys stay distinct. *)
Theorem add_contact_for_caller (body : schemas_contacts.ContactModel)
  (user now : Z) (db : Contacts) :
  let contact := fst (add_contact body user now db) in
  let db' := snd (add_contact body user now db) in
  user_id contact = Some user /\
  first_name contact = capitalize (schemas_contacts.first_name body) /\
  last_name contact = capitalize (schemas_contacts.last_name body) /\
  (forall x, In x db -> id x <> id contact) /\
  db' = (db ++ [contact])%list /\
  get_contact (id contact) user db' = Some contact /\
  (forall other, other <> user -> get_contact (id contact) other db' = None)
  /\ (NoDup (map id db) -> NoDup (map id db')).
Proof.
  intros contact db'. subst contact db'. cbn [add_contact fst snd].
  set (c := {| id := next_id db |}).
  split; [reflexivity |]. split; [reflexivity |]. split; [reflexivity |].
  split.
  - intros x Hin. pose proof (contact_id_below_next db x Hin). cbn [id c]. lia.
  - split; [reflexivity |]. split; [| split].
    + unfold get_contact. rewrite find_append.
      cbn [id c]. rewrite find_fresh_id. cbn [find id c].
      rewrite Z.eqb_refl. unfold owned. cbn [user_id c].
      now rewrite Z.eqb_refl.
    + intros other Hne. unfold get_contact. rewrite find_append.
      cbn [id c]. rewrite find_fresh_id. cbn [find id c].
      rewrite Z.eqb_refl. unfold owned. cbn [user_id c].
      destruct (Z.eqb_spec user other); [congruence | reflexivity].
    + intros Hnd. rewrite map_app. cbn [map id c].
      apply NoDup_app; [exact Hnd | repeat constructor; intros [] |].
      intros a Hin [<- | []].
      apply in_map_iff in Hin as (x & Hx & Hin).
      pose proof (contact_id_below_next db x Hin). lia.
Qed.

(** X19.  Removal.  [remove_contact] of a contact the caller does not
    have returns nothing and leaves the table alone.  Of a contact the
    caller has, it returns the contact, after which nobody finds a contact
    under that id; on a table with distinct primary keys every other row
    stays, in order, and the table is one row shorter. *)
Theorem remove_contact_outcomes (contact_id user : Z) (db : Contacts) :
  (get_contact contact_id user db = None ->
   remove_contact contact_id user db = (None, db)) /\
  (forall c,
     get_contact contact_id user db = Some c ->
     let db' := snd (remove_contact contact_id user db) in
     fst (remove_contact contact_id user db) = Some c /\
     (forall anyone, get_contact contact_id anyone db' = None) /\
     (NoDup (map id db) ->
      (forall x, In x db' <-> In x db /\ x <> c) /\
      S (length db') = length db)).
Proof.
  unfold remove_contact. split.
  - now intros ->.
  - intros c Hc. rewrite Hc. cbn [fst snd].
    destruct (get_contact_found _ _ _ _ Hc) as (Hin & Hid & _).
    split; [reflexivity |]. split.
    + intros anyone. unfold get_contact.
      destruct (find _ (filter _ db)) as [x |] eqn:Hf; [| reflexivity].
      apply find_some in Hf as [Hx Hm].
      apply filter_In in Hx as [_ Hne].
      apply andb_true_iff in Hm as [Hxid _]. apply Z.eqb_eq in Hxid.
      rewrite Hxid, Hid, Z.eqb_refl in Hne. discriminate.
    + intros Hnd. split.
      * intros x. rewrite filter_In. split.
        -- intros [Hx Hne]. split; [exact Hx |]. intros ->.
           now rewrite Z.eqb_refl in Hne.
        -- intros [Hx Hne]. split; [exact Hx |].
           destruct (Z.eqb_spec (id x) (id c)) as [Heq |]; [| reflexivity].
           exfalso. apply Hne. now apply (same_id_same_row db).
      * clear Hc Hid. induction db as [| x db IH]; [destruct Hin |].
        inversion Hnd as [| ? ? Hnotin Hnd']; subst. cbn [filter length].
        destruct Hin as [-> | Hin].
        -- rewrite Z.eqb_refl. cbn [negb]. f_equal.
           clear IH Hnd. induction db as [| y db IH]; [reflexivity |].
           cbn [filter length map In] in *.
           destruct (Z.eqb_spec (id y) (id c)) as [Heq | Hne].
           ++ exfalso. apply Hnotin. now left.
           ++ cbn [negb length]. f_equal. apply IH.
              ** intros H. apply Hnotin. now right.
              ** now inversion Hnd'.
        -- destruct (Z.eqb_spec (id x) (id c)) as [Heq | Hne].
           ++ exfalso. apply Hnotin. rewrite Heq. now apply in_map.
           ++ cbn [negb length]. f_equal. now apply IH.
Qed.

Lemma search_by_email (db : Contacts) (user : Z)
  (first_name last_name : option string) (e : string) :
  e <> "" ->
  search_contact db user first_name last_name (Some e) =
  Some (filter (fun c => String.eqb (models_contacts.email c) (lower e)
                         && owned user c) db).
Proof.
  intros He. unfold search_contact.
  destruct e; [now elim He | reflexivity].
Qed.

Lemma search_by_first_name (db : Contacts) (user : Z)
  (last_name : option string) (f : string) :
  f <> "" ->
  search_contact db user (Some f) last_name None =
  Some (filter (fun c => String.eqb (models_contacts.first_name c)
                           (capitalize f)
                         && owned user c) db).
Proof.
  intros Hf. unfold search_contact.
  destruct f; [now elim Hf |]. cbn [given]. now destruct (given last_name).
Qed.

(** X20.  What [search_contact] looks at.  A non-empty email decides the
    search alone, compared in lower case.  Otherwise a non-empty first
    name decides it alone: the last name is not looked at.  With neither,
    the function returns [None] -- which the route answers with 404 -- so
    a last name by itself finds nothing. *)
Theorem search_contact_precedence (db : Contacts) (user : Z)
  (first_name last_name email : option string) :
  (forall e, email = Some e -> e <> "" ->
     search_contact db user first_name last_name email =
     Some (filter (fun c => String.eqb (models_contacts.email c) (lower e)
                            && owned user c) db)) /\
  (given email = false ->
   forall f, first_name = Some f -> f <> "" ->
     search_contact db user first_name last_name email =
     Some (filter (fun c => String.eqb (models_contacts.first_name c)
                              (capitalize f)
                            && owned user c) db)) /\
  (given email = false -> given first_name = false ->
   search_contact db user first_name last_name email = None).
Proof.
  unfold search_contact. split; [| split].
  - intros e -> He. destruct e; [now elim He | reflexivity].
  - intros Hem f -> Hf. rewrite Hem. destruct f; [now elim Hf | reflexivity].
  - intros -> ->. reflexivity.
Qed.

(** X21.  Names and the search.  A contact is stored by [add_contact]
    under its capitalised first name and is found by a search for that
    name in any letter case.  [change_contact] stores the first name as
    typed: when that is not its own capitalised form, no search by a first
    name written in ASCII finds the contact any more.  (Beyond ASCII
    [capitalize] here is not Python's, which is why the query is ASCII.) *)
Theorem names_and_search (body : schemas_contacts.ContactModel)
  (user now : Z) (db : Contacts) :
  (forall q found,
     q <> "" ->
     capitalize q = capitalize (schemas_contacts.first_name body) ->
     search_contact (snd (add_contact body user now db)) user
       (Some q) None None = Some found ->
     In (fst (add_contact body user now db)) found) /\
  (forall contact_id c q last_name found,
     get_contact contact_id user db = Some c ->
     capitalize (schemas_contacts.first_name body) <>
       schemas_contacts.first_name body ->
     isascii q = true ->
     search_contact (snd (change_contact contact_id body user db)) user
       (Some q) last_name None = Some found ->
     fst (change_contact contact_id body user db) = Some (changed body c) /\
     In (changed body c) (snd (change_contact contact_id body user db)) /\
     ~ In (changed body c) found).
Proof.
  split.
  - intros q found Hq Hcap Hs.
    rewrite (search_by_first_name _ user None q Hq) in Hs.
    injection Hs as <-.
    apply filter_In. cbn [add_contact fst snd]. split.
    + apply in_or_app. right. now left.
    + cbn [models_contacts.first_name]. rewrite Hcap, String.eqb_refl.
      unfold owned. cbn [user_id]. now rewrite Z.eqb_refl.
  - intros contact_id c q ln found Hc Hraw _ Hs.
    unfold change_contact in *. rewrite Hc in *. cbn [fst snd] in *.
    destruct (get_contact_found _ _ _ _ Hc) as (Hin & _ & _).
    split; [reflexivity |]. split.
    + apply in_map_iff. exists c. now rewrite Z.eqb_refl.
    + intros Hfound. unfold search_contact in Hs. cbn [given] in Hs.
      destruct q as [| a q].
      * cbn [given andb] in Hs. discriminate.
      * cbn [given] in Hs.
        assert (Hf : In (changed body c)
                       (filter
                          (fun x => String.eqb (models_contacts.first_name x)
                                      (capitalize (String a q))
                                    && owned user x)
                          (map (fun x => if id x =? id c
                                         then changed body x else x) db))).
        { destruct (given ln); cbn [andb] in Hs;
            injection Hs as <-; exact Hfound. }
        apply filter_In in Hf as [_ Hm].
        apply andb_true_iff in Hm as [Hname _].
        apply String.eqb_eq in Hname. cbn [models_contacts.first_name changed]
          in Hname.
        apply Hraw. rewrite Hname. apply capitalize_idem.
Qed.

(** X22.  The search by email compares the stored email with the query in
    lower case: whatever the query, no contact whose stored email has an
    upper-case letter is found by email. *)
Theorem email_search_misses_upper_case (db : Contacts) (user : Z)
  (first_name last_name : option string) (q : string)
  (found : list Contact) (c : Contact) :
  q <> "" ->
  search_contact db user first_name last_name (Some q) = Some found ->
  In c found ->
  has_upper (models_contacts.email c) = false.
Proof.
  intros Hq Hs Hin.
  rewrite (search_by_email db user first_name last_name q Hq) in Hs.
  injection Hs as <-.
  apply filter_In in Hin as [_ Hm].
  apply andb_true_iff in Hm as [Hm _]. apply String.eqb_eq in Hm.
  rewrite Hm. apply lower_has_no_upper.
Qed.

Lemma firstn_sum {A : Type} (a b : nat) (l : list A) :
  firstn (a + b) l = (firstn a l ++ firstn b (skipn a l))%list.
Proof.
  revert l. induction a as [| a IH]; intros l; [reflexivity |].
  destruct l as [| x l]; simpl.
  - now rewrite firstn_nil.
  - now rewrite IH.
Qed.

(** X23.  Pages of [get_contacts], for a [skip] and limits that are not
    negative and whose sum a database still takes as a count.  A page holds
    at most [limit] contacts; a page followed by the page that starts where
    it ends is the page of their joint size; a [skip] at or past the number
    of the caller's contacts gives the empty page; and a page from 0 with a
    limit of at least the size of the table holds all of the caller's
    contacts, in table order. *)
Theorem get_contacts_pages (skip limit limit' : Z) (user : Z)
  (db : Contacts) :
  0 <= skip -> 0 <= limit -> 0 <= limit' ->
  skip + limit + limit' <= bigint_max ->
  Z.of_nat (length (get_contacts skip limit user db)) <= limit /\
  (get_contacts skip limit user db ++
   get_contacts (skip + limit) limit' user db)%list =
    get_contacts skip (limit + limit') user db /\
  (Z.of_nat (length (filter (owned user) db)) <= skip ->
   get_contacts skip limit user db = []) /\
  (skip = 0 -> Z.of_nat (length db) <= limit ->
   get_contacts skip limit user db = filter (owned user) db).
Proof.
  intros Hskip Hlimit Hlimit' _.
  unfold get_contacts, repository_contacts.limit, offset.
  destruct (Z.ltb_spec limit 0) as [| _]; [lia |].
  destruct (Z.ltb_spec limit' 0) as [| _]; [lia |].
  destruct (Z.ltb_spec (limit + limit') 0) as [| _]; [lia |].
  split; [| split; [| split]].
  - pose proof (firstn_le_length (Z.to_nat limit)
                  (skipn (Z.to_nat skip) (filter (owned user) db))).
    lia.
  - rewrite (Z2Nat.inj_add limit limit') by assumption.
    rewrite firstn_sum, skipn_skipn. f_equal. f_equal. f_equal. lia.
  - intros Hlen. rewrite skipn_all2 by lia. apply firstn_nil.
  - intros -> Hlen. cbn [Z.to_nat skipn]. apply firstn_all2.
    pose proof (filter_length_le (owned user) db). lia.
Qed.

Lemma coming_week_keeps (today : date) (l cs : list Contact) (c : Contact) :
  coming_week today l = Value cs -> In c l ->
  in_coming_week today c = Value true -> In c cs.
Proof.
  revert cs. induction l as [| x l IH]; simpl; intros cs; [intros _ [] |].
  destruct (in_coming_week today x) as [keep |] eqn:Hx; [| discriminate].
  destruct (coming_week today l) as [rest |]; [| discriminate].
  intros [= <-] [-> | Hin] Hc.
  - rewrite Hc in Hx. injection Hx as <-. now left.
  - specialize (IH rest eq_refl Hin Hc). destruct keep; [now right | exact IH].
Qed.

Lemma coming_week_raises (today : date) (l : list Contact) (c : Contact)
  (msg : string) :
  In c l -> in_coming_week today c = ValueError msg ->
  exists msg', coming_week today l = ValueError msg'.
Proof.
  induction l as [| x l IH]; simpl; [intros [] |].
  intros [-> | Hin] Hc.
  - rewrite Hc. eexists; reflexivity.
  - destruct (in_coming_week today x); [| eexists; reflexivity].
    destruct (IH Hin Hc) as [msg' ->]. eexists; reflexivity.
Qed.

Lemma le_refl (d : date) : le d d = true.
Proof.
  unfold le. rewrite !Z.eqb_refl, Z.leb_refl.
  now rewrite !orb_true_r.
Qed.

Lemma le_spec (d1 d2 : date) :
  le d1 d2 = true <->
  year d1 < year d2 \/
  (year d1 = year d2 /\
   (month d1 < month d2 \/ (month d1 = month d2 /\ day d1 <= day d2))).
Proof.
  unfold le.
  rewrite !orb_true_iff, !andb_true_iff, !orb_true_iff, !andb_true_iff,
    !Z.ltb_lt, !Z.eqb_eq, Z.leb_le.
  tauto.
Qed.

Lemma le_trans (d1 d2 d3 : date) :
  le d1 d2 = true -> le d2 d3 = true -> le d1 d3 = true.
Proof.
  rewrite !le_spec. lia.
Qed.

Lemma Value_inj {A : Type} (a b : A) : Value a = Value b -> a = b.
Proof. intros H. now inversion H. Qed.

Lemma le_next_day (d : date) : le d (next_day d) = true.
Proof.
  apply le_spec. unfold next_day.
  destruct (day d <? days_in_month (year d) (month d)); simpl; [lia |].
  destruct (Z.ltb_spec (month d) 12); simpl; lia.
Qed.

Lemma le_add_days (d : date) (n : nat) : le d (add_days d n) = true.
Proof.
  unfold add_days. induction n as [| n IH]; simpl; [apply le_refl |].
  exact (le_trans _ _ _ IH (le_next_day _)).
Qed.

(** X24.  Which birthdays [get_birthdays] lists.  A contact of the caller
    whose birthday has the month and day of today is listed.  A contact
    whose birthday, by month and day, lies earlier in the year than today
    is not listed -- also when it comes round again within seven days, as
    a birthday in the first days of January does in the last days of
    December. *)
Theorem birthdays_of_this_year_only (user : Z) (today : date)
  (db : Contacts) (c : Contact) (b : date) (listed : list Contact) :
  birthday c = Some b ->
  get_birthdays user today db = Value listed ->
  (valid today -> In c db -> user_id c = Some user ->
   month b = month today -> day b = day today -> In c listed) /\
  (month b < month today \/ (month b = month today /\ day b < day today) ->
   ~ In c listed).
Proof.
  intros Hb Hlist. unfold get_birthdays in Hlist. split.
  - intros (_ & _ & Hday) Hin Hown Hm Hd.
    apply (coming_week_keeps today _ _ c Hlist).
    + apply filter_In. split; [exact Hin | now apply owned_user_id].
    + unfold in_coming_week, replace_year. rewrite Hb, Hm, Hd.
      destruct (Z.leb_spec (day today)
                  (days_in_month (year today) (month today))); [| lia].
      assert (Hsame : {| year := year today; month := month today;
                         day := day today |} = today) by now destruct today.
      now rewrite Hsame, le_refl, le_add_days.
  - intros Hpast Hin.
    destruct (coming_week_sublist _ _ _ _ Hlist Hin) as [_ Hc].
    unfold in_coming_week, replace_year in Hc. rewrite Hb in Hc.
    destruct (day b <=? days_in_month (year today) (month b));
      [| discriminate].
    apply Value_inj in Hc. apply andb_true_iff in Hc as [Hc _].
    apply le_spec in Hc. cbn [year month day] in Hc. lia.
Qed.

(** X25.  A birthday on the 29th of February.  In a year that is not a
    leap year [replace(year=...)] raises for it: as soon as the caller has
    one such contact, [get_birthdays] returns no list at all for that
    caller but ends in [ValueError], whatever the other contacts. *)
Theorem leap_day_birthday_raises (user : Z) (today : date) (db : Contacts)
  (c : Contact) (b : date) :
  In c db ->
  user_id c = Some user ->
  birthday c = Some b ->
  month b = 2 -> day b = 29 ->
  is_leap (year today) = false ->
  exists msg, get_birthdays user today db = ValueError msg.
Proof.
  intros Hin Hown Hb Hm Hd Hleap. unfold get_birthdays.
  apply (coming_week_raises today _ c "day is out of range for month").
  - apply filter_In. split; [exact Hin | now apply owned_user_id].
  - unfold in_coming_week, replace_year, days_in_month.
    rewrite Hb, Hm, Hd, Hleap. reflexivity.
Qed.

End contacts_facts.

(** ** [src/routes/contacts.py]

    The routes after the rate limiter let the request through: the guard
    resolves the caller, then the repository runs on the contacts table. *)

Module routes_contacts.
Import AuthToken models_contacts repository_contacts routes_users.

(** The two stores a contacts route sees. *)
Definition app : Type := (world * Contacts)%type.

Definition not_found : exn := HTTPException HTTP_404_NOT_FOUND "Not Found" None.

Section routes_contacts.
Context {settings : Settings}.

(** [user: int = Depends(authtoken.get_current_user)], then the route. *)
Definition guarded {A : Type} (token : token) (now : Z)
  (route : Z -> Contacts -> result A * Contacts) (s : app)
  : result A * app :=
  match get_current_user token now (fst s) with
  | (Return user, w') =>
      let (x, contacts') := route (key user) (snd s) in (x, (w', contacts'))
  | (Raise e, w') => (Raise e, (w', snd s))
  end.

Definition get_contacts (skip limit : Z) (token : token) (now : Z)
  : app -> result (list Contact) * app :=
  guarded token now
    (fun user db =>
       (Return (repository_contacts.get_contacts skip limit user db), db)).

Definition add_contact (body : schemas_contacts.ContactModel) (token : token)
  (now : Z) : app -> result Contact * app :=
  guarded token now
    (fun user db =>
       let (contact, db') := repository_contacts.add_contact body user now db
       in (Return contact, db')).

Definition search_contact (first_name last_name email : option string)
  (token : token) (now : Z) : app -> result (list Contact) * app :=
  guarded token now
    (fun user db =>
       match repository_contacts.search_contact db user first_name last_name
               email with
       | None => (Raise not_found, db)
       | Some contacts => (Return contacts, db)
       end).

Definition remove_contact (contact_id : Z) (token : token) (now : Z)
  : app -> result Contact * app :=
  guarded token now
    (fun user db =>
       match repository_contacts.remove_contact contact_id user db with
       | (None, db') => (Raise not_found, db')
       | (Some contact, db') => (Return contact, db')
       end).

Definition change_contact (body : schemas_contacts.ContactModel)
  (contact_id : Z) (token : token) (now : Z)
  : app -> result (option Contact) * app :=
  guarded token now
    (fun user db =>
       match repository_contacts.get_contact contact_id user db with
       | None => (Raise not_found, db)
       | Some _ =>
           let (contact, db') :=
             repository_contacts.change_contact contact_id body user db in
           (Return contact, db')
       end).

Definition get_contact (contact_id : Z) (token : token) (now : Z)
  : app -> result Contact * app :=
  guarded token now
    (fun user db =>
       match repository_contacts.get_contact contact_id user db with
       | None => (Raise not_found, db)
       | Some contact => (Return contact, db)
       end).

End routes_contacts.
End routes_contacts.

Module contacts_route_facts.
Import AuthToken table_facts repository_user models_contacts.
Import history history_facts lifetime_facts routes_users contacts_facts.

Section contacts_route_facts.
Context {settings : Settings} {pwd_context : CryptContext}
  {gravatar : Gravatar}.

(** In a reachable world the guard resolves a valid token to the primary
    key of the identity of its email, from the cache or from the table. *)
Lemma guard_key (tok : token) (now : Z) (w : world) (e : string)
  (u : models.User) :
  reachable w ->
  get_current_user_email tok now = Return e ->
  get_user_by_email e (db w) = Some u ->
  exists cu w',
    get_current_user tok now w = (Return cu, w') /\ key cu = models.id u.
Proof.
  intros Hreach Hd Hu.
  destruct (reachable_keeps w Hreach) as [_ Hco].
  destruct (redis.get e now (r w)) as [n |] eqn:Hc.
  - rewrite (cache_facts.guard_hit tok now w e n Hd Hc).
    destruct (Hco e n now Hc) as (u' & Hu' & Hid).
    rewrite Hu in Hu'. injection Hu' as <-.
    eexists; eexists. split; [reflexivity | now symmetry].
  - rewrite (cache_facts.guard_miss tok now w e u Hd Hc Hu).
    eexists; eexists. split; reflexivity.
Qed.

Lemma not_the_owner (contact_id user : Z) (cs : repository_contacts.Contacts)
  (c : Contact) :
  NoDup (map id cs) -> In c cs -> id c = contact_id ->
  user_id c <> Some user ->
  repository_contacts.get_contact contact_id user cs = None.
Proof.
  intros Hnd Hin Hid Hother.
  destruct (repository_contacts.get_contact contact_id user cs) as [x |] eqn:Hx;
    [| reflexivity].
  destruct (get_contact_found _ _ _ _ Hx) as (Hxin & Hxid & Hxown).
  assert (x = c) by (apply (same_id_same_row cs); congruence).
  congruence.
Qed.

(** X26.  Another identity's contact, through the routes.  In a reachable
    world and on a contacts table with distinct primary keys, a caller
    with a valid access token who names the id of a contact that carries
    another identity's key is answered 404 "Not Found" by the read, the
    change and the removal alike, and the contacts table is left as it
    was. *)
Theorem foreign_contact_not_found (tok : token) (now : Z) (w : world)
  (cs : repository_contacts.Contacts) (e : string) (u : models.User)
  (c : Contact) (body : schemas_contacts.ContactModel) :
  reachable w ->
  get_current_user_email tok now = Return e ->
  get_user_by_email e (db w) = Some u ->
  NoDup (map id cs) ->
  In c cs ->
  user_id c <> Some (models.id u) ->
  (fst (routes_contacts.get_contact (id c) tok now (w, cs)) =
     Raise routes_contacts.not_found /\
   snd (snd (routes_contacts.get_contact (id c) tok now (w, cs))) = cs) /\
  (fst (routes_contacts.change_contact body (id c) tok now (w, cs)) =
     Raise routes_contacts.not_found /\
   snd (snd (routes_contacts.change_contact body (id c) tok now (w, cs))) = cs)
  /\
  (fst (routes_contacts.remove_contact (id c) tok now (w, cs)) =
     Raise routes_contacts.not_found /\
   snd (snd (routes_contacts.remove_contact (id c) tok now (w, cs))) = cs).
Proof.
  intros Hreach Hd Hu Hnd Hin Hother.
  destruct (guard_key tok now w e u Hreach Hd Hu) as (cu & w' & Hguard & Hkey).
  pose proof (not_the_owner (id c) (models.id u) cs c Hnd Hin eq_refl Hother)
    as Hnone.
  unfold routes_contacts.get_contact, routes_contacts.change_contact,
    routes_contacts.remove_contact, routes_contacts.guarded,
    repository_contacts.remove_contact.
  cbn [fst snd]. rewrite Hguard, Hkey, Hnone. cbn [fst snd].
  repeat split.
Qed.

End contacts_route_facts.
End contacts_route_facts.

(** ** The further properties on the concrete deployment *)

Module fixture_contacts.
Import dates models_contacts repository_contacts.

(** A transport that delivers. *)
Definition test_fastmail : services_email.FastMail :=
  {| services_email.send_message := fun _ _ => services_email.Delivered |}.

(** The contact of [tests/conftest.py]. *)
Definition contact : schemas_contacts.ContactModel :=
  {| schemas_contacts.first_name := "Poll";
     schemas_contacts.last_name := "Anderson";
     schemas_contacts.email := "poll@example.com";
     schemas_contacts.phone_number := "0998887766";
     schemas_contacts.birthday := {| year := 1999; month := 5; day := 1 |};
     schemas_contacts.address := "Test address";
     schemas_contacts.user_id := 1 |}.

(** A contact born on a 29th of February, with a mixed-case email. *)
Definition leapling : schemas_contacts.ContactModel :=
  {| schemas_contacts.first_name := "lea";
     schemas_contacts.last_name := "Day";
     schemas_contacts.email := "Lea@example.com";
     schemas_contacts.phone_number := "0501112233";
     schemas_contacts.birthday := {| year := 2000; month := 2; day := 29 |};
     schemas_contacts.address := "Another address";
     schemas_contacts.user_id := 1 |}.

(** The table after identity 1 added [contact] and identity 2 added
    [leapling]. *)
Definition poll : Contact := fst (add_contact contact 1 100 []).

Definition lea : Contact := fst (add_contact leapling 2 200 [poll]).

Definition table : Contacts := [poll; lea].

End fixture_contacts.

Module more_examples.
Import AuthToken scoped fixture fixture_contacts history.
Import dates.

Definition A1 : token := issue access address None 20.

Lemma confirmed_reachable :
  reachable (settings := test_settings) (pwd_context := test_pwd_context)
    (gravatar := test_gravatar) confirmed.
Proof.
  exact (reachable_serve
           (ConfirmedEmail
              (create_email_token (settings := test_settings)
                 [("sub", JStr address)] 0)) 10 _
           (reachable_serve (SignUp user base_url "salt") 0 _
              reachable_empty)).
Qed.

Lemma confirmed_row :
  repository_user.get_user_by_email address (db confirmed) = Some identity.
Proof. vm_compute. reflexivity. Qed.

Lemma A1_live :
  get_current_user_email (settings := test_settings) A1 30 = Return address.
Proof. vm_compute. reflexivity. Qed.

Lemma guard_cache_cycle_witness :
  fst (get_current_user A1 30 confirmed) = Return (id_int 1) /\
  get_current_user A1 90 (snd (get_current_user A1 30 confirmed)) =
    (Return (id_str 1), snd (get_current_user A1 30 confirmed)).
Proof.
  destruct (cache_facts.guard_cache_cycle (settings := test_settings)
              A1 30 confirmed address identity A1_live eq_refl confirmed_row)
    as (Hmiss & _ & Hhit & _).
  split; [exact Hmiss |].
  apply Hhit; [vm_compute; reflexivity | reflexivity | lia].
Defined.

Lemma login_then_guard_witness :
  fst (get_current_user A1 100 logged_in) = Return (id_int 1) /\
  get_current_user A1 1821 logged_in =
    (Raise credentials_exception, logged_in).
Proof.
  assert (Hlogin : routes_auth.login (settings := test_settings)
                     (pwd_context := test_pwd_context) (form "qwerty") 20
                     confirmed =
                   (Return (routes_auth.bearer A1 R1), logged_in))
    by (vm_compute; reflexivity).
  destruct (session_facts.login_then_guard _ _ _ _ _ Hlogin)
    as (u & Hu & Hopen & Hshut).
  assert (u = identity) as ->.
  { change (repository_user.get_user_by_email address (db confirmed) = Some u)
      in Hu.
    rewrite confirmed_row in Hu. now injection Hu. }
  split.
  - apply (Hopen 100); [vm_compute; discriminate | reflexivity].
  - apply (Hshut 1821). vm_compute. reflexivity.
Defined.

Lemma refresh_rotates_witness :
  exists tk w',
    refresh_token R1 600 logged_in = (Return tk, w') /\
    tk = routes_auth.bearer (issue access address None 600) R2.
Proof.
  assert (Hdec : refresh_token_email (settings := test_settings) R1 600 =
                 Return address) by (vm_compute; reflexivity).
  assert (Hrow : repository_user.get_user_by_email address (db logged_in) =
                 Some (models.set_refresh_token identity (Some R1)))
    by (vm_compute; reflexivity).
  destruct (session_facts.refresh_rotates (settings := test_settings)
              R1 600 logged_in address _ Hdec Hrow eq_refl)
    as (tk & w' & Hrun & Htk & _).
  exists tk, w'. split; [exact Hrun | exact Htk].
Defined.

(** A signed payload that names no subject. *)
Definition anonymous : token :=
  JWS "HS256" [("scope", JStr "refresh_token")] "secret_key".

Lemma subject_missing_witness :
  get_email_from_token (settings := test_settings) anonymous 0 =
    Raise (KeyError "sub") /\
  confirmed_email anonymous 0 confirmed = (Raise (KeyError "sub"), confirmed)
  /\ refresh_token_email (settings := test_settings) anonymous 0 =
       Raise (routes_auth.unauthorized "Could not validate credentials").
Proof.
  destruct (session_facts.subject_missing (settings := test_settings)
              anonymous 0 [("scope", JStr "refresh_token")] confirmed
              eq_refl eq_refl)
    as (Hreader & Hconfirm & _ & Hrefresh & _).
  split; [exact Hreader |]. split; [exact Hconfirm | exact Hrefresh].
Defined.

(** A signed payload whose expiry is [null], and a string that is no
    token. *)
Definition null_expiry : token :=
  JWS "HS256" [("sub", JStr address); ("exp", JNull)] "secret_key".

Lemma confirmed_email_outcomes_witness :
  confirmed_email null_expiry 50 confirmed =
    (Raise (TypeError ("int() argument must be a string, a bytes-like " ++
                       "object or a real number, not 'NoneType'")),
     confirmed) /\
  confirmed_email (Opaque "junk") 50 confirmed =
    (Raise (HTTPException 422 "Invalid token for email verification" None),
     confirmed).
Proof.
  split.
  - destruct (session_facts.confirmed_email_outcomes
                (settings := test_settings) null_expiry 50 confirmed)
      as [Hrefused _].
    exact (Hrefused _ eq_refl).
  - destruct (session_facts.confirmed_email_outcomes
                (settings := test_settings) (Opaque "junk") 50 confirmed)
      as [Hrefused _].
    exact (Hrefused _ eq_refl).
Defined.

Definition reset_link : token :=
  create_email_token (settings := test_settings) [("sub", JStr address)] 25.

Lemma reset_link_live :
  get_email_from_token (settings := test_settings) reset_link 30 =
  Return address.
Proof. vm_compute. reflexivity. Qed.

Lemma reset_flow_witness :
  fst (password_reset_email reset_link 30 confirmed) = Return PR /\
  exists w2,
    set_new_password new_password_request 40 "salt" reset_pending =
      (Return "password update successfully", w2) /\
    exists tk w3,
      login (form "asdfgh") 50 w2 = (Return tk, w3).
Proof.
  destruct (session_facts.reset_flow (settings := test_settings)
              (pwd_context := test_pwd_context)
              reset_link 30 confirmed address identity new_password_request
              40 "salt" reset_link_live confirmed_row eq_refl eq_refl)
    as (Hexchange & w2 & Hset & _ & Hlogin).
  - vm_compute. discriminate.
  - split; [exact Hexchange |]. exists w2. split; [exact Hset |].
    exact (Hlogin examples.test_pwd_context_contract eq_refl 50).
Defined.

Lemma reset_token_superseded_witness :
  let w2 := snd (password_reset_email reset_link 35 reset_pending) in
  (exists detail,
     set_new_password new_password_request 40 "salt" w2 =
     (Raise (routes_auth.unauthorized detail), w2)) /\
  exists pr2,
    fst (password_reset_email reset_link 35 reset_pending) = Return pr2 /\
    repository_user.get_user_by_email address (db w2) =
      Some (models.set_password_reset_token identity (Some pr2)).
Proof.
  assert (Hlater : get_email_from_token (settings := test_settings)
                     reset_link 35 = Return address)
    by (vm_compute; reflexivity).
  assert (Hne : 30 <> 35) by discriminate.
  destruct (session_facts.reset_token_superseded (settings := test_settings)
              (pwd_context := test_pwd_context)
              reset_link reset_link 30 35 confirmed address identity
              new_password_request 40 "salt"
              reset_link_live Hlater confirmed_row Hne eq_refl)
    as (Hrefused & pr2 & Hpr2 & Hstored & _).
  split; [exact Hrefused |]. exists pr2. split; [exact Hpr2 | exact Hstored].
Defined.

Lemma sign_up_to_login_witness :
  exists w2,
    confirmed_email
      (mail_facts.link (settings := test_settings) (fm := test_fastmail)
         (send_email address "Testuser" base_url) 5) 10 signed_up =
      (Return "Email confirmed", w2) /\
    exists tk w3, login (form "qwerty") 20 w2 = (Return tk, w3).
Proof.
  destruct (mail_facts.sign_up_to_login (settings := test_settings)
              (pwd_context := test_pwd_context) (gravatar := test_gravatar)
              (fm := test_fastmail) empty user base_url "salt" 5 10
              examples.test_pwd_context_contract eq_refl)
    as (queued & Hqueue & _ & _ & w2 & Hconfirm & Hlogin).
  - vm_compute. discriminate.
  - assert (queued = send_email address "Testuser" base_url) as ->.
    { vm_compute in Hqueue. now injection Hqueue. }
    exists w2. split; [exact Hconfirm | exact (Hlogin 20)].
Defined.

Lemma mail_links_interchangeable_witness :
  fst (password_reset_email
         (mail_facts.link (settings := test_settings) (fm := test_fastmail)
            (send_email address "Testuser" base_url) 5) 10 signed_up) =
  Return (issue reset_password address None 10).
Proof.
  assert (Hrow : repository_user.get_user_by_email address (db signed_up) =
                 Some unconfirmed_identity) by (vm_compute; reflexivity).
  assert (Hlive : 10 <= 5 + 3600) by (vm_compute; discriminate).
  destruct (mail_facts.mail_links_interchangeable (settings := test_settings)
              (fm := test_fastmail) signed_up unconfirmed_identity address
              "Testuser" base_url "Testuser" base_url 5 10 Hrow Hlive)
    as (_ & Hboth).
  destruct (Hboth (send_email address "Testuser" base_url)
              (or_introl eq_refl)) as (Hreset & _).
  exact (f_equal fst Hreset).
Defined.

Lemma identity_is_stable_witness :
  exists u',
    repository_user.get_user_by_email address (db logged_in) = Some u' /\
    models.id u' = 1 /\ models.email_confirm u' = true.
Proof.
  destruct (lifetime_facts.identity_is_stable (settings := test_settings)
              (pwd_context := test_pwd_context) (gravatar := test_gravatar)
              (Login (form "qwerty")) 20 confirmed address identity
              confirmed_row)
    as (u' & Hfound & Hid & _ & _ & Hconf).
  exists u'. split; [exact Hfound |]. split; [exact Hid | now apply Hconf].
Defined.

Lemma reachable_invariants_witness :
  table_facts.unique_emails (db confirmed) /\
  NoDup (map models.id (db confirmed)).
Proof.
  destruct (lifetime_facts.reachable_invariants confirmed confirmed_reachable)
    as (Hmail & Hids & _).
  split; [exact Hmail | exact Hids].
Defined.

Lemma read_users_me_own_row_witness :
  fst (routes_users.read_users_me (settings := test_settings) A1 30 confirmed)
  = Return (Some identity).
Proof.
  exact (lifetime_facts.read_users_me_own_row A1 30 confirmed address identity
           confirmed_reachable A1_live confirmed_row).
Defined.

Lemma table_keys : NoDup (map models_contacts.id table).
Proof.
  repeat constructor; simpl; intuition discriminate.
Qed.

Lemma writes_spare_others_witness :
  In lea (snd (repository_contacts.change_contact 2 contact 1 table)) /\
  In lea (snd (repository_contacts.remove_contact 2 1 table)).
Proof.
  apply (contacts_facts.writes_spare_others 2 contact 1 table lea table_keys).
  - right. left. reflexivity.
  - discriminate.
Defined.

(** Identity 1 renames its contact to "lea": a search for "lea" finds
    nothing. *)
Lemma names_and_search_witness :
  repository_contacts.search_contact
    (snd (repository_contacts.change_contact 1 leapling 1 table)) 1
    (Some "lea") None None = Some [] /\
  In (repository_contacts.changed leapling poll)
    (snd (repository_contacts.change_contact 1 leapling 1 table)).
Proof.
  assert (Hs : repository_contacts.search_contact
                 (snd (repository_contacts.change_contact 1 leapling 1 table))
                 1 (Some "lea") None None = Some [])
    by (vm_compute; reflexivity).
  split; [exact Hs |].
  destruct (contacts_facts.names_and_search leapling 1 0 table) as [_ Hraw].
  destruct (Hraw 1 poll "lea" None [] eq_refl) as (_ & Hin & _).
  - vm_compute. discriminate.
  - reflexivity.
  - exact Hs.
  - exact Hin.
Defined.

(** The first two contacts of identity 1: the one it has. *)
Lemma get_contacts_pages_witness :
  Z.of_nat (length (repository_contacts.get_contacts 0 2 1 table)) <= 2 /\
  repository_contacts.get_contacts 0 2 1 table = [poll].
Proof.
  destruct (contacts_facts.get_contacts_pages 0 2 0 1 table)
    as (Hlen & _ & _ & Hall); try lia.
  - vm_compute. discriminate.
  - split; [exact Hlen |]. apply Hall; [reflexivity | simpl; lia].
Defined.

Lemma email_search_misses_upper_case_witness :
  text.has_upper (models_contacts.email poll) = false.
Proof.
  apply (contacts_facts.email_search_misses_upper_case table 1 None None
           "POLL@example.com" [poll] poll).
  - discriminate.
  - vm_compute. reflexivity.
  - left. reflexivity.
Defined.

Lemma birthdays_of_this_year_only_witness :
  In poll [poll] /\ ~ In poll [].
Proof.
  destruct (contacts_facts.birthdays_of_this_year_only 1
              {| year := 2023; month := 5; day := 1 |} table poll
              {| year := 1999; month := 5; day := 1 |} [poll]
              eq_refl eq_refl) as (Htoday & _).
  destruct (contacts_facts.birthdays_of_this_year_only 1
              {| year := 2023; month := 12; day := 30 |} table poll
              {| year := 1999; month := 5; day := 1 |} []
              eq_refl eq_refl) as (_ & Hpast).
  split.
  - apply Htoday; try reflexivity.
    + unfold valid; vm_compute; intuition discriminate.
    + left. reflexivity.
  - apply Hpast. left. vm_compute. reflexivity.
Defined.

Lemma leap_day_birthday_raises_witness :
  exists msg,
    repository_contacts.get_birthdays 2
      {| year := 2023; month := 2; day := 25 |} table = ValueError msg.
Proof.
  apply (contacts_facts.leap_day_birthday_raises 2
           {| year := 2023; month := 2; day := 25 |} table lea
           {| year := 2000; month := 2; day := 29 |}).
  - right. left. reflexivity.
  - reflexivity.
  - reflexivity.
  - reflexivity.
  - reflexivity.
  - reflexivity.
Defined.

Lemma foreign_contact_not_found_witness :
  fst (routes_contacts.get_contact (settings := test_settings) 2 A1 30
         (confirmed, table)) = Raise routes_contacts.not_found /\
  snd (snd (routes_contacts.remove_contact (settings := test_settings) 2 A1 30
              (confirmed, table))) = table.
Proof.
  destruct (contacts_route_facts.foreign_contact_not_found
              A1 30 confirmed table address identity lea contact
              confirmed_reachable A1_live confirmed_row table_keys)
    as ((Hread & _) & _ & (_ & Hremove)).
  - right. left. reflexivity.
  - discriminate.
  - split; [exact Hread | exact Hremove].
Defined.

End more_examples.
